(** * The building tools of the Minecraft MCP server

    A shallow embedding of [src/tools/building.ts]: the single-block
    placement helper [placeBlockAt] and the five tool handlers registered by
    [registerBuildingTools] (build-wall, build-floor, build-box, fill-area,
    clear-area), followed by the properties the specification states about
    them.

    Modelling choices.
    - Coordinates and sizes are integers ([Z]); the specification's data
      model calls a coordinate an integer triple.
    - The [bot] object is an interface ([Bot]) over an abstract world state.
      Every call may change the world and may raise (a rejected promise that
      is awaited raises at the [await]).
    - Handlers run in a state-and-exception monad [M]; the state carries the
      world and the trace of the bot calls issued so far. *)

From Stdlib Require Import ZArith List String Bool Lia DecimalString FinFun.
Import ListNotations.
Open Scope string_scope.
Open Scope list_scope.
Open Scope Z_scope.

Set Implicit Arguments.

(* ================================================================== *)
(** ** Data *)

(** [Vec3] of the vec3 package, restricted to what the tools use. *)
Record Vec3 := mkVec3 { vx : Z; vy : Z; vz : Z }.

Definition plus (a b : Vec3) : Vec3 :=
  mkVec3 (vx a + vx b) (vy a + vy b) (vz a + vz b).

Definition scaled (a : Vec3) (k : Z) : Vec3 :=
  mkVec3 (vx a * k) (vy a * k) (vz a * k).

Definition Vec3_eqb (a b : Vec3) : bool :=
  (vx a =? vx b) && (vy a =? vy b) && (vz a =? vz b).

(** What the tools read of a mineflayer block: its name (and where it is). *)
Record Block := mkBlock { name : string; position : Vec3 }.

(** [goals.GoalNear(x, y, z, range)] of mineflayer-pathfinder. *)
Record Goal := GoalNear { gx : Z; gy : Z; gz : Z; grange : Z }.

(** A thrown value; the handlers only ever read its message. *)
Definition Err := string.

Inductive Res (A : Type) : Type :=
| Ok (a : A)
| Throw (e : Err).
Arguments Ok {A} a.
Arguments Throw {A} e.

(** The calls the tools make on [bot], in the order of the bot API. *)
Inductive Event : Type :=
| EBlockAt (p : Vec3)
| ECanSeeBlock (b : Block)
| ECanDigBlock (b : Block)
| EGoto (g : Goal)
| ELookAt (p : Vec3) (force : bool)
| EPlaceBlock (reference : Block) (faceVector : Vec3)
| EDig (b : Block).

(** The bot as the tools use it.  [bot.blockAt] answers [null] ([None]) or a
    block. *)
Record Bot (W : Type) := mkBot {
  bot_blockAt : Vec3 -> W -> Res (option Block) * W;
  bot_canSeeBlock : Block -> W -> Res bool * W;
  bot_canDigBlock : Block -> W -> Res bool * W;
  bot_goto : Goal -> W -> Res unit * W;
  bot_lookAt : Vec3 -> bool -> W -> Res unit * W;
  bot_placeBlock : Block -> Vec3 -> W -> Res unit * W;
  bot_dig : Block -> W -> Res unit * W
}.

(* ================================================================== *)
(** ** The monad of the handlers *)

Section Monad.

Variable W : Type.

Record St := mkSt { world : W; trace : list Event }.

Definition M (A : Type) : Type := St -> Res A * St.

Definition ret {A} (a : A) : M A := fun s => (Ok a, s).

Definition bind {A B} (m : M A) (k : A -> M B) : M B :=
  fun s => match m s with
           | (Ok a, s') => k a s'
           | (Throw e, s') => (Throw e, s')
           end.

(** [try { body } catch (error) { handler }] *)
Definition try_catch {A} (body : M A) (handler : Err -> M A) : M A :=
  fun s => match body s with
           | (Ok a, s') => (Ok a, s')
           | (Throw e, s') => handler e s'
           end.

(** One call on the bot: the call is appended to the trace and its outcome
    is the bot's. *)
Definition call {A} (ev : Event) (op : W -> Res A * W) : M A :=
  fun s => let (r, w') := op (world s) in
           (r, mkSt w' (trace s ++ [ev])).

End Monad.

Arguments mkSt {W} world trace.
Arguments ret {W A} a.

Declare Scope monad_scope.
Delimit Scope monad_scope with monad.
Notation "x <- m ;; k" := (bind m (fun x => k))
  (at level 61, m at next level, right associativity) : monad_scope.
Notation "m ;;; k" := (bind m (fun _ => k))
  (at level 61, right associativity) : monad_scope.
Open Scope monad_scope.

(* ================================================================== *)
(** ** Response helpers *)

Record TextContent := mkText { text : string }.

Record McpResponse := mkResponse {
  content : list TextContent;
  isError : bool
}.

Definition createResponse (t : string) : McpResponse :=
  mkResponse [mkText t] false.

(** [createErrorResponse] also writes the message to the error console,
    which is not part of the model. *)
Definition createErrorResponse (error : Err) : McpResponse :=
  mkResponse [mkText ("Failed: " ++ error)%string] true.

(** Template-literal rendering of an integer. *)
Definition show (n : Z) : string := NilZero.string_of_int (Z.to_int n).

(* ================================================================== *)
(** ** placeBlockAt *)

Record Face := mkFace { direction : string; vector : Vec3 }.

Definition faces : list Face :=
  [ mkFace "down" (mkVec3 0 (-1) 0);
    mkFace "north" (mkVec3 0 0 (-1));
    mkFace "south" (mkVec3 0 0 1);
    mkFace "east" (mkVec3 1 0 0);
    mkFace "west" (mkVec3 (-1) 0 0);
    mkFace "up" (mkVec3 0 1 0) ].

(** [b && b.name !== 'air'] *)
Definition non_air (b : option Block) : bool :=
  match b with
  | Some blk => negb (name blk =? "air")%string
  | None => false
  end.

Section PlaceBlockAt.

Variable W : Type.
Variable bot : Bot W.

Definition blockAt (p : Vec3) : M W (option Block) :=
  call (EBlockAt p) (bot_blockAt bot p).
Definition canSeeBlock (b : Block) : M W bool :=
  call (ECanSeeBlock b) (bot_canSeeBlock bot b).
Definition canDigBlock (b : Block) : M W bool :=
  call (ECanDigBlock b) (bot_canDigBlock bot b).
Definition goto (g : Goal) : M W unit :=
  call (EGoto g) (bot_goto bot g).
Definition lookAt (p : Vec3) (force : bool) : M W unit :=
  call (ELookAt p force) (bot_lookAt bot p force).
Definition placeBlock (reference : Block) (faceVector : Vec3) : M W unit :=
  call (EPlaceBlock reference faceVector) (bot_placeBlock bot reference faceVector).
Definition dig (b : Block) : M W unit :=
  call (EDig b) (bot_dig bot b).

(** Lines 66-71: walk near the reference block when it cannot be seen, then
    look at the target. *)
Definition approach (referenceBlock : Block) (referencePos placePos : Vec3)
  : M W unit :=
  seen <- canSeeBlock referenceBlock ;;
  (if negb seen
   then goto (GoalNear (vx referencePos) (vy referencePos) (vz referencePos) 2)
   else ret tt) ;;;
  lookAt placePos true.

(** Lines 73-78: the inner [try]; [true] is its [return true], [false] its
    [continue]. *)
Definition attempt (referenceBlock : Block) (face : Face) : M W bool :=
  try_catch
    (placeBlock referenceBlock (scaled (vector face) (-1)) ;;; ret true)
    (fun _ => ret false).

(** Lines 62-79, the body of [for (const face of faces)]: [true] when the
    body returned [true] from [placeBlockAt], [false] when the loop goes on
    to the next face. *)
Definition try_face (placePos : Vec3) (face : Face) : M W bool :=
  let referencePos := plus placePos (vector face) in
  referenceBlock <- blockAt referencePos ;;
  match referenceBlock with
  | Some rb =>
      if negb (name rb =? "air")%string then
        approach rb referencePos placePos ;;;
        attempt rb face
      else ret false
  | None => ret false
  end.

(** The loop from a given face on, with the [return false] that follows
    it. *)
Fixpoint for_faces (placePos : Vec3) (fs : list Face) : M W bool :=
  match fs with
  | [] => ret false
  | face :: rest =>
      placed <- try_face placePos face ;;
      if placed then ret true else for_faces placePos rest
  end.

Definition placeBlockAt (x y z : Z) (blockType : string) : M W bool :=
  try_catch
    (let placePos := mkVec3 x y z in
     blockAtPos <- blockAt placePos ;;
     if non_air blockAtPos then ret false
     else for_faces placePos faces)
    (fun _ => ret false).

End PlaceBlockAt.

Arguments placeBlockAt {W} bot x y z blockType.
Arguments for_faces {W} bot placePos fs.

(* ================================================================== *)
(** ** Loops and counters *)

Section Loops.

Variable W : Type.

(** A loop whose body updates the local variables [C] of the handler; a
    raise in the body leaves the loop. *)
Fixpoint foldM {A C} (body : A -> C -> M W C) (xs : list A) (c : C) : M W C :=
  match xs with
  | [] => ret c
  | x :: rest => c' <- body x c ;; foldM body rest c'
  end.

(** The values [lo], [lo + 1], ... ([n] of them). *)
Definition range (lo : Z) (n : nat) : list Z :=
  map (fun i => lo + Z.of_nat i) (seq 0 n).

(** The values a loop variable takes in [for (let i = lo; i < hi; i++)]
    and in [for (let i = lo; i <= hi; i++)]. *)
Definition indices_lt (lo hi : Z) : list Z := range lo (Z.to_nat (hi - lo)).
Definition indices_le (lo hi : Z) : list Z := range lo (Z.to_nat (hi + 1 - lo)).

Definition for_lt {C} (lo hi : Z) (body : Z -> C -> M W C) : C -> M W C :=
  foldM body (indices_lt lo hi).

Definition for_le {C} (lo hi : Z) (body : Z -> C -> M W C) : C -> M W C :=
  foldM body (indices_le lo hi).

End Loops.

(** [blocksPlaced] and [blocksFailed] of the four placement handlers. *)
Record Counters := mkCounters { blocksPlaced : Z; blocksFailed : Z }.

(** [if (success) blocksPlaced++; else blocksFailed++;] *)
Definition tally (success : bool) (c : Counters) : Counters :=
  if success
  then mkCounters (blocksPlaced c + 1) (blocksFailed c)
  else mkCounters (blocksPlaced c) (blocksFailed c + 1).

(** [material || 'default'] for an optional string. *)
Definition or_default (m : option string) : string :=
  match m with
  | Some s => if (s =? "")%string then "default" else s
  | None => "default"
  end.

Inductive Direction := north | south | east | west.

Definition show_direction (d : Direction) : string :=
  match d with
  | north => "north" | south => "south" | east => "east" | west => "west"
  end.

(** The [switch (direction)] of build-wall. *)
Definition deltaX (d : Direction) : Z :=
  match d with east => 1 | west => -1 | _ => 0 end.
Definition deltaZ (d : Direction) : Z :=
  match d with north => -1 | south => 1 | _ => 0 end.

(** [isEdge] of build-box. *)
Definition isEdge (minX maxX minY maxY minZ maxZ x y z : Z) : bool :=
  (x =? minX) || (x =? maxX) ||
  (y =? minY) || (y =? maxY) ||
  (z =? minZ) || (z =? maxZ).

(* ================================================================== *)
(** ** The placement handlers *)

Section Handlers.

Variable W : Type.
Variable bot : Bot W.

(** The body shared by the four placement loops: one [placeBlockAt] and the
    counter update. *)
Definition place_and_count (blockType : string) (x y z : Z) (c : Counters)
  : M W Counters :=
  success <- placeBlockAt bot x y z blockType ;;
  ret (tally success c).

(** *** build-wall *)

Definition wall_loop (startX startY startZ : Z) (d : Direction)
    (length height thickness : Z) (material : option string)
  : Counters -> M W Counters :=
  let dX := deltaX d in
  let dZ := deltaZ d in
  for_lt 0 length (fun l =>
    for_lt 0 height (fun h =>
      for_lt 0 thickness (fun t =>
        let x := startX + (dX * l) + (dZ * t) in
        let y := startY + h in
        let z := startZ + (dZ * l) + (dX * t) in
        place_and_count (or_default material) x y z))).

Definition wall_total (length height thickness : Z) : Z :=
  length * height * thickness.

Definition wall_message (d : Direction) (length height thickness : Z)
    (c : Counters) : string :=
  ("Wall building completed! Built a " ++ show length ++ "x" ++ show height
   ++ "x" ++ show thickness ++ " wall facing " ++ show_direction d ++ ". "
   ++ "Placed " ++ show (blocksPlaced c) ++ "/"
   ++ show (wall_total length height thickness) ++ " blocks. "
   ++ show (blocksFailed c) ++ " blocks failed.")%string.

Definition build_wall (startX startY startZ : Z) (d : Direction)
    (length height : Z) (thickness : option Z) (material : option string)
  : M W McpResponse :=
  let thickness := match thickness with Some t => t | None => 1 end in
  try_catch
    (c <- wall_loop startX startY startZ d length height thickness material
           (mkCounters 0 0) ;;
     ret (createResponse (wall_message d length height thickness c)))
    (fun error => ret (createErrorResponse error)).

(** *** build-floor *)

Definition floor_loop (centerX centerY centerZ width length : Z)
    (blockType : option string) : Counters -> M W Counters :=
  let halfWidth := width / 2 in
  let halfLength := length / 2 in
  for_le (centerX - halfWidth) (centerX + halfWidth) (fun x =>
    for_le (centerZ - halfLength) (centerZ + halfLength) (fun z =>
      place_and_count (or_default blockType) x centerY z)).

Definition floor_total (width length : Z) : Z := width * length.

Definition floor_message (width length : Z) (c : Counters) : string :=
  ("Floor building completed! Placed " ++ show (blocksPlaced c) ++ "/"
   ++ show (floor_total width length) ++ " blocks. "
   ++ show (blocksFailed c)
   ++ " blocks failed (already occupied or no support).")%string.

Definition build_floor (centerX centerY centerZ width length : Z)
    (blockType : option string) : M W McpResponse :=
  try_catch
    (c <- floor_loop centerX centerY centerZ width length blockType
           (mkCounters 0 0) ;;
     ret (createResponse (floor_message width length c)))
    (fun error => ret (createErrorResponse error)).

(** *** build-box *)

Definition box_loop (x1 y1 z1 x2 y2 z2 : Z) (blockType : option string)
  : Counters -> M W Counters :=
  let minX := Z.min x1 x2 in
  let maxX := Z.max x1 x2 in
  let minY := Z.min y1 y2 in
  let maxY := Z.max y1 y2 in
  let minZ := Z.min z1 z2 in
  let maxZ := Z.max z1 z2 in
  for_le minX maxX (fun x =>
    for_le minY maxY (fun y =>
      for_le minZ maxZ (fun z c =>
        if isEdge minX maxX minY maxY minZ maxZ x y z
        then place_and_count (or_default blockType) x y z c
        else ret c))).

Definition box_message (c : Counters) : string :=
  ("Box building completed! Placed " ++ show (blocksPlaced c) ++ " blocks. "
   ++ show (blocksFailed c)
   ++ " blocks failed (already occupied or no support).")%string.

Definition build_box (x1 y1 z1 x2 y2 z2 : Z) (blockType : option string)
  : M W McpResponse :=
  try_catch
    (c <- box_loop x1 y1 z1 x2 y2 z2 blockType (mkCounters 0 0) ;;
     ret (createResponse (box_message c)))
    (fun error => ret (createErrorResponse error)).

(** *** fill-area *)

Definition fill_loop (x1 y1 z1 x2 y2 z2 : Z) (blockType : option string)
  : Counters -> M W Counters :=
  let minX := Z.min x1 x2 in
  let maxX := Z.max x1 x2 in
  let minY := Z.min y1 y2 in
  let maxY := Z.max y1 y2 in
  let minZ := Z.min z1 z2 in
  let maxZ := Z.max z1 z2 in
  for_le minX maxX (fun x =>
    for_le minY maxY (fun y =>
      for_le minZ maxZ (fun z =>
        place_and_count (or_default blockType) x y z))).

Definition fill_total (x1 y1 z1 x2 y2 z2 : Z) : Z :=
  (Z.max x1 x2 - Z.min x1 x2 + 1) * (Z.max y1 y2 - Z.min y1 y2 + 1)
  * (Z.max z1 z2 - Z.min z1 z2 + 1).

Definition fill_message (x1 y1 z1 x2 y2 z2 : Z) (c : Counters) : string :=
  ("Area filling completed! Placed " ++ show (blocksPlaced c) ++ "/"
   ++ show (fill_total x1 y1 z1 x2 y2 z2) ++ " blocks. "
   ++ show (blocksFailed c)
   ++ " blocks failed (already occupied or no support).")%string.

Definition fill_area (x1 y1 z1 x2 y2 z2 : Z) (blockType : option string)
  : M W McpResponse :=
  try_catch
    (c <- fill_loop x1 y1 z1 x2 y2 z2 blockType (mkCounters 0 0) ;;
     ret (createResponse (fill_message x1 y1 z1 x2 y2 z2 c)))
    (fun error => ret (createErrorResponse error)).

End Handlers.

(* ================================================================== *)
(** ** clear-area *)

Module ClearArea.

(** [blocksDug] and [blocksFailed] of the clear-area handler. *)
Record Counters := mkCounters { blocksDug : Z; blocksFailed : Z }.

Section Handler.

Variable W : Type.
Variable bot : Bot W.

(** Line 328, [!bot.canDigBlock(block) || !bot.canSeeBlock(block)]: the
    right operand is evaluated only when the left one is false. *)
Definition out_of_reach (block : Block) : M W bool :=
  canDig <- canDigBlock bot block ;;
  if negb canDig then ret true
  else seen <- canSeeBlock bot block ;; ret (negb seen).

(** Lines 328-331: walk near a block that cannot be dug or seen. *)
Definition get_close (x y z : Z) (block : Block) : M W unit :=
  far <- out_of_reach block ;;
  if far then goto bot (GoalNear x y z 2) else ret tt.

(** The body of the innermost loop: its own [try]/[catch]. *)
Definition clear_at (x y z : Z) (c : Counters) : M W Counters :=
  try_catch
    (let blockPos := mkVec3 x y z in
     block <- blockAt bot blockPos ;;
     match block with
     | Some b =>
         if negb (name b =? "air")%string then
           get_close x y z b ;;;
           dig bot b ;;;
           ret (mkCounters (blocksDug c + 1) (blocksFailed c))
         else ret c
     | None => ret c
     end)
    (fun _ => ret (mkCounters (blocksDug c) (blocksFailed c + 1))).

Definition clear_loop (x1 y1 z1 x2 y2 z2 : Z) : Counters -> M W Counters :=
  let minX := Z.min x1 x2 in
  let maxX := Z.max x1 x2 in
  let minY := Z.min y1 y2 in
  let maxY := Z.max y1 y2 in
  let minZ := Z.min z1 z2 in
  let maxZ := Z.max z1 z2 in
  for_le minX maxX (fun x =>
    for_le minY maxY (fun y =>
      for_le minZ maxZ (fun z => clear_at x y z))).

Definition clear_message (c : Counters) : string :=
  ("Area clearing completed! Dug " ++ show (blocksDug c) ++ " blocks. "
   ++ show (blocksFailed c) ++ " blocks failed to dig.")%string.

Definition clear_area (x1 y1 z1 x2 y2 z2 : Z) : M W McpResponse :=
  try_catch
    (c <- clear_loop x1 y1 z1 x2 y2 z2 (mkCounters 0 0) ;;
     ret (createResponse (clear_message c)))
    (fun error => ret (createErrorResponse error)).

End Handler.

End ClearArea.

(* ================================================================== *)
(** ** The coordinate sequences of the shapes

    The loops of the handlers with the world taken out: the coordinates at
    which the body is reached, in order.  [wall_loop_coords] and its
    siblings below show that each handler's loop is one [placeBlockAt] per
    element of its sequence. *)

Definition wall_coords (startX startY startZ : Z) (d : Direction)
    (length height thickness : Z) : list Vec3 :=
  flat_map (fun l =>
    flat_map (fun h =>
      map (fun t => mkVec3 (startX + (deltaX d * l) + (deltaZ d * t))
                           (startY + h)
                           (startZ + (deltaZ d * l) + (deltaX d * t)))
          (indices_lt 0 thickness))
      (indices_lt 0 height))
    (indices_lt 0 length).

Definition floor_coords (centerX centerY centerZ width length : Z) : list Vec3 :=
  flat_map (fun x =>
    map (fun z => mkVec3 x centerY z)
        (indices_le (centerZ - length / 2) (centerZ + length / 2)))
    (indices_le (centerX - width / 2) (centerX + width / 2)).

Definition fill_coords (x1 y1 z1 x2 y2 z2 : Z) : list Vec3 :=
  flat_map (fun x =>
    flat_map (fun y =>
      map (fun z => mkVec3 x y z) (indices_le (Z.min z1 z2) (Z.max z1 z2)))
      (indices_le (Z.min y1 y2) (Z.max y1 y2)))
    (indices_le (Z.min x1 x2) (Z.max x1 x2)).

Definition on_shell (x1 y1 z1 x2 y2 z2 : Z) (p : Vec3) : bool :=
  isEdge (Z.min x1 x2) (Z.max x1 x2) (Z.min y1 y2) (Z.max y1 y2)
         (Z.min z1 z2) (Z.max z1 z2) (vx p) (vy p) (vz p).

Definition box_coords (x1 y1 z1 x2 y2 z2 : Z) : list Vec3 :=
  filter (on_shell x1 y1 z1 x2 y2 z2) (fill_coords x1 y1 z1 x2 y2 z2).

(** One [placeBlockAt] and counter update per coordinate, in order. *)
Definition place_each {W} (bot : Bot W) (blockType : string) (cs : list Vec3)
  : Counters -> M W Counters :=
  foldM (fun p => place_and_count bot blockType (vx p) (vy p) (vz p)) cs.

(** The positions asked of [bot.blockAt] in a trace, in order. *)
Definition queried (tr : list Event) : list Vec3 :=
  flat_map (fun ev => match ev with EBlockAt p => [p] | _ => [] end) tr.

(* ================================================================== *)
(** ** A small world to run the tools in

    Blocks are stone at the positions listed in [solid] and air elsewhere.
    A block at a [hidden] position cannot be seen; walking to a goal at a
    [no_path] position raises; placing against a block at a [no_place]
    position raises; digging a block at a [no_dig] position raises. *)

Module Demo.

Record World := mkWorld {
  solid : list Vec3;
  hidden : list Vec3;
  no_path : list Vec3;
  no_place : list Vec3;
  no_dig : list Vec3
}.

Definition mem (p : Vec3) (ps : list Vec3) : bool := existsb (Vec3_eqb p) ps.

Definition bot : Bot World := {|
  bot_blockAt := fun p w =>
    (Ok (Some (mkBlock (if mem p (solid w) then "stone" else "air") p)), w);
  bot_canSeeBlock := fun b w => (Ok (negb (mem (position b) (hidden w))), w);
  bot_canDigBlock := fun b w => (Ok true, w);
  bot_goto := fun g w =>
    if mem (mkVec3 (gx g) (gy g) (gz g)) (no_path w)
    then (Throw "No path to the goal!", w) else (Ok tt, w);
  bot_lookAt := fun p force w => (Ok tt, w);
  bot_placeBlock := fun reference faceVector w =>
    if mem (position reference) (no_place w)
    then (Throw "No block has been placed", w)
    else (Ok tt, mkWorld (plus (position reference) faceVector :: solid w)
                         (hidden w) (no_path w) (no_place w) (no_dig w));
  bot_dig := fun b w =>
    if mem (position b) (no_dig w)
    then (Throw "Digging aborted", w)
    else (Ok tt, mkWorld (filter (fun q => negb (Vec3_eqb q (position b))) (solid w))
                         (hidden w) (no_path w) (no_place w) (no_dig w))
|}.

(** The same bot with a head that cannot turn: every [lookAt] raises. *)
Definition stiff : Bot World := {|
  bot_blockAt := bot_blockAt bot;
  bot_canSeeBlock := bot_canSeeBlock bot;
  bot_canDigBlock := bot_canDigBlock bot;
  bot_goto := bot_goto bot;
  bot_lookAt := fun p force w => (Throw "Cannot look there", w);
  bot_placeBlock := bot_placeBlock bot;
  bot_dig := bot_dig bot
|}.

Definition start (w : World) : St World := mkSt w [].

(** Nothing but air. *)
Definition empty : World := mkWorld [] [] [] [] [].

(** A block at the origin. *)
Definition occupied : World := mkWorld [mkVec3 0 0 0] [] [] [] [].

(** Air at the origin and below it, a visible block to the north. *)
Definition north_only : World := mkWorld [mkVec3 0 0 (-1)] [] [] [] [].

(** Blocks below and north of the origin; the one below refuses
    placements. *)
Definition rejecting : World :=
  mkWorld [mkVec3 0 (-1) 0; mkVec3 0 0 (-1)] [] [] [mkVec3 0 (-1) 0] [].

(** Blocks below and north of the origin; the one below is out of sight and
    cannot be walked to. *)
Definition blocked_path : World :=
  mkWorld [mkVec3 0 (-1) 0; mkVec3 0 0 (-1)] [mkVec3 0 (-1) 0]
          [mkVec3 0 (-1) 0] [] [].

(** A 2x1x1 strip of blocks, the rest air. *)
Definition strip : World := mkWorld [mkVec3 0 0 0; mkVec3 1 0 0] [] [] [] [].

(** The same strip, its second block refusing to be dug. *)
Definition stubborn_strip : World :=
  mkWorld [mkVec3 0 0 0; mkVec3 1 0 0] [] [] [] [mkVec3 1 0 0].

(** A floor of three blocks just below height 0. *)
Definition ground : World :=
  mkWorld [mkVec3 0 (-1) 0; mkVec3 1 (-1) 0; mkVec3 2 (-1) 0] [] [] [] [].

End Demo.

(* ================================================================== *)
(** ** Reading traces *)

Definition is_query (ev : Event) : bool :=
  match ev with EBlockAt _ => true | _ => false end.
Definition is_walk (ev : Event) : bool :=
  match ev with EGoto _ => true | _ => false end.
Definition is_look (ev : Event) : bool :=
  match ev with ELookAt _ _ => true | _ => false end.
Definition is_place (ev : Event) : bool :=
  match ev with EPlaceBlock _ _ => true | _ => false end.
Definition is_dig (ev : Event) : bool :=
  match ev with EDig _ => true | _ => false end.

(** How many calls of one kind a trace holds. *)
Definition count (kind : Event -> bool) (tr : list Event) : nat :=
  List.length (filter kind tr).

(** Lines 66-74 when nothing raises: the calls that follow the query of the
    reference block [rb] of a face; [walk] tells whether the block was out
    of sight. *)
Definition face_script (placePos : Vec3) (face : Face) (rb : Block)
    (walk : bool) : list Event :=
  let referencePos := plus placePos (vector face) in
  [ECanSeeBlock rb]
  ++ (if walk
      then [EGoto (GoalNear (vx referencePos) (vy referencePos)
                            (vz referencePos) 2)]
      else [])
  ++ [ELookAt placePos true; EPlaceBlock rb (scaled (vector face) (-1))].

(** Lines 328-333 when nothing raises: the calls that follow the query of a
    block of clear-area; [see] tells whether [canSeeBlock] was asked, [walk]
    whether the bot walked. *)
Definition dig_script (x y z : Z) (b : Block) (see walk : bool) : list Event :=
  [ECanDigBlock b]
  ++ (if see then [ECanSeeBlock b] else [])
  ++ (if walk then [EGoto (GoalNear x y z 2)] else [])
  ++ [EDig b].

(** The calls [placeBlockAt] may make for the target [placePos] when its
    loop runs over the faces [fs]. *)
Definition placing_call (placePos : Vec3) (fs : list Face) (ev : Event) : Prop :=
  match ev with
  | EBlockAt p =>
      p = placePos \/ exists f, In f fs /\ p = plus placePos (vector f)
  | ECanSeeBlock b => name b <> "air"
  | EGoto g =>
      grange g = 2 /\
      exists f, In f fs /\ mkVec3 (gx g) (gy g) (gz g) = plus placePos (vector f)
  | ELookAt p force => p = placePos /\ force = true
  | EPlaceBlock rb v =>
      name rb <> "air" /\ exists f, In f fs /\ v = scaled (vector f) (-1)
  | ECanDigBlock _ => False
  | EDig _ => False
  end.

(** The calls clear-area may make for the coordinate [p]. *)
Definition clearing_call (p : Vec3) (ev : Event) : Prop :=
  match ev with
  | EBlockAt q => q = p
  | ECanDigBlock b => name b <> "air"
  | ECanSeeBlock b => name b <> "air"
  | EGoto g => g = GoalNear (vx p) (vy p) (vz p) 2
  | EDig b => name b <> "air"
  | ELookAt _ _ => False
  | EPlaceBlock _ _ => False
  end.

(** From [s] to [s'] the trace grew by calls that all satisfy [P]. *)
Definition appends {W} (P : Event -> Prop) (s s' : St W) : Prop :=
  exists tr, trace s' = trace s ++ tr /\ Forall P tr.

(** [attempts bot blockType cs s bs s']: starting in [s], one
    [placeBlockAt] per coordinate of [cs], in order, each run in the state
    the one before left; [bs] holds their answers and [s'] is the state
    after the last. *)
Inductive attempts {W} (bot : Bot W) (blockType : string)
  : list Vec3 -> St W -> list bool -> St W -> Prop :=
| attempts_nil s : attempts bot blockType [] s [] s
| attempts_cons p cs s b s1 bs s' :
    placeBlockAt bot (vx p) (vy p) (vz p) blockType s = (Ok b, s1) ->
    attempts bot blockType cs s1 bs s' ->
    attempts bot blockType (p :: cs) s (b :: bs) s'.

(** How many of the answers are [true], how many [false]. *)
Definition placed_count (bs : list bool) : Z :=
  Z.of_nat (List.length (filter (fun b => b) bs)).
Definition failed_count (bs : list bool) : Z :=
  Z.of_nat (List.length (filter negb bs)).

(** The trace [tr] is one stretch of calls per coordinate of [cs], in
    order; the stretch of [p] opens with the query of [p] and holds only
    calls of the placement of [p]. *)
Definition segmented (cs : list Vec3) (tr : list Event) : Prop :=
  exists segs,
    tr = List.concat segs /\
    Forall2 (fun p seg =>
               exists rest,
                 seg = EBlockAt p :: rest /\
                 Forall (placing_call p faces) rest) cs segs.

(** [clears bot cs c s c' s']: starting with counters [c] in state [s], the
    body of the clear-area loop run once per coordinate of [cs], in order;
    [c'] and [s'] are the counters and the state after the last. *)
Inductive clears {W} (bot : Bot W)
  : list Vec3 -> ClearArea.Counters -> St W ->
    ClearArea.Counters -> St W -> Prop :=
| clears_nil c s : clears bot [] c s c s
| clears_cons p cs c s c1 s1 c' s' :
    ClearArea.clear_at bot (vx p) (vy p) (vz p) c s = (Ok c1, s1) ->
    clears bot cs c1 s1 c' s' ->
    clears bot (p :: cs) c s c' s'.

(** The integer points of a cuboid given by its bounds, x outermost; empty
    as soon as one lower bound exceeds its upper bound. *)
Definition cuboid (lx hx ly hy lz hz : Z) : list Vec3 :=
  flat_map (fun x =>
    flat_map (fun y => map (fun z => mkVec3 x y z) (indices_le lz hz))
             (indices_le ly hy))
    (indices_le lx hx).

(* ================================================================== *)
(** ** Loops as folds over index lists *)

Section LoopFacts.

Variable W : Type.
Implicit Types s : St W.

Lemma foldM_ext {A C} (f g : A -> C -> M W C) xs :
  (forall x c s, f x c s = g x c s) ->
  forall c s, foldM f xs c s = foldM g xs c s.
Proof.
  intros H. induction xs as [|x xs IH]; intros c s; simpl; [reflexivity|].
  unfold bind. rewrite H. destruct (g x c s) as [[c'|e] s']; auto.
Qed.

Lemma foldM_app {A C} (f : A -> C -> M W C) xs ys c s :
  foldM f (xs ++ ys) c s = (c' <- foldM f xs c ;; foldM f ys c') s.
Proof.
  revert c s. induction xs as [|x xs IH]; intros c s; simpl.
  - reflexivity.
  - unfold bind. destruct (f x c s) as [[c'|e] s']; [|reflexivity].
    rewrite IH. reflexivity.
Qed.

Lemma foldM_map {A B C} (g : A -> B) (f : B -> C -> M W C) xs c s :
  foldM f (map g xs) c s = foldM (fun x => f (g x)) xs c s.
Proof.
  revert c s. induction xs as [|x xs IH]; intros c s; simpl; [reflexivity|].
  unfold bind. destruct (f (g x) c s) as [[c'|e] s']; auto.
Qed.

Lemma foldM_flat_map {A B C} (g : A -> list B) (f : B -> C -> M W C) xs c s :
  foldM f (flat_map g xs) c s = foldM (fun x => foldM f (g x)) xs c s.
Proof.
  revert c s. induction xs as [|x xs IH]; intros c s; simpl; [reflexivity|].
  rewrite foldM_app. unfold bind.
  destruct (foldM f (g x) c s) as [[c'|e] s']; auto.
Qed.

Lemma foldM_filter {A C} (keep : A -> bool) (f : A -> C -> M W C) xs c s :
  foldM f (filter keep xs) c s =
  foldM (fun x c => if keep x then f x c else ret c) xs c s.
Proof.
  revert c s. induction xs as [|x xs IH]; intros c s; simpl; [reflexivity|].
  destruct (keep x); simpl; unfold bind.
  - destruct (f x c s) as [[c'|e] s']; auto.
  - unfold ret. apply IH.
Qed.

End LoopFacts.

(** Index lists. *)

Lemma range_length lo n : List.length (range lo n) = n.
Proof. unfold range. rewrite List.length_map, List.length_seq. reflexivity. Qed.

Lemma in_range lo n i : In i (range lo n) <-> lo <= i < lo + Z.of_nat n.
Proof.
  unfold range. rewrite in_map_iff. split.
  - intros (k & <- & Hk). apply in_seq in Hk. lia.
  - intros H. exists (Z.to_nat (i - lo)). split; [lia|]. apply in_seq. lia.
Qed.

Lemma NoDup_range lo n : NoDup (range lo n).
Proof.
  unfold range. apply Injective_map_NoDup; [|apply seq_NoDup].
  intros a b H. lia.
Qed.

Lemma in_indices_lt lo hi i : In i (indices_lt lo hi) <-> lo <= i < hi.
Proof. unfold indices_lt. rewrite in_range. lia. Qed.

Lemma in_indices_le lo hi i : In i (indices_le lo hi) <-> lo <= i <= hi.
Proof. unfold indices_le. rewrite in_range. lia. Qed.

Lemma indices_lt_length lo hi :
  Z.of_nat (List.length (indices_lt lo hi)) = Z.max 0 (hi - lo).
Proof. unfold indices_lt. rewrite range_length. lia. Qed.

Lemma indices_le_length lo hi :
  Z.of_nat (List.length (indices_le lo hi)) = Z.max 0 (hi + 1 - lo).
Proof. unfold indices_le. rewrite range_length. lia. Qed.

Lemma flat_map_length_const {A B} (f : A -> list B) (n : nat) xs :
  (forall x, In x xs -> List.length (f x) = n) ->
  List.length (flat_map f xs) = (List.length xs * n)%nat.
Proof.
  induction xs as [|x xs IH]; intros H; simpl; [reflexivity|].
  rewrite List.length_app, H by (simpl; auto).
  rewrite IH by (intros; apply H; simpl; auto). reflexivity.
Qed.

Lemma NoDup_flat_map {A B} (f : A -> list B) xs :
  NoDup xs ->
  (forall x, In x xs -> NoDup (f x)) ->
  (forall x y b, In x xs -> In y xs -> In b (f x) -> In b (f y) -> x = y) ->
  NoDup (flat_map f xs).
Proof.
  induction 1 as [|x xs Hx Hnd IH]; intros Hf Hdisj; simpl; [constructor|].
  apply NoDup_app.
  - apply Hf. simpl; auto.
  - apply IH.
    + intros y Hy. apply Hf. simpl; auto.
    + intros y y' b Hy Hy'. apply Hdisj; simpl; auto.
  - intros b Hb Hb'. apply in_flat_map in Hb' as (y & Hy & Hby).
    assert (x = y) by (apply (Hdisj x y b); simpl; auto).
    subst. contradiction.
Qed.

(* ================================================================== *)
(** ** Facts about the trace *)

Lemma queried_app tr1 tr2 : queried (tr1 ++ tr2) = queried tr1 ++ queried tr2.
Proof. unfold queried. apply flat_map_app. Qed.

Section TraceFacts.

Variable W : Type.
Variable bot : Bot W.
Implicit Types s : St W.

Lemma call_trace {A} ev (op : W -> Res A * W) s r s' :
  call ev op s = (r, s') -> trace s' = trace s ++ [ev].
Proof.
  unfold call. destruct (op (world s)) as [r0 w']. intros [= _ <-]. reflexivity.
Qed.

Lemma blockAt_queried p s r s' :
  blockAt bot p s = (r, s') -> queried (trace s') = queried (trace s) ++ [p].
Proof.
  intros H. apply call_trace in H. rewrite H, queried_app. reflexivity.
Qed.

Lemma call_quiet {A} ev (op : W -> Res A * W) s r s' :
  queried [ev] = [] ->
  call ev op s = (r, s') -> queried (trace s') = queried (trace s).
Proof.
  intros Hev H. apply call_trace in H.
  rewrite H, queried_app, Hev. apply app_nil_r.
Qed.

Lemma approach_queried rb referencePos placePos s r s' :
  approach bot rb referencePos placePos s = (r, s') ->
  queried (trace s') = queried (trace s).
Proof.
  unfold approach, bind, canSeeBlock, goto, lookAt, ret.
  destruct (call _ _ s) as [[seen|e] s1] eqn:E1;
    (apply call_quiet in E1; [|reflexivity]).
  2:{ intros [= _ <-]. assumption. }
  destruct seen; simpl.
  - intros H. apply call_quiet in H; [|reflexivity]. congruence.
  - destruct (call (EGoto _) _ s1) as [[[]|e] s2] eqn:E2;
      apply call_quiet in E2; try reflexivity.
    + intros H. apply call_quiet in H; [|reflexivity]. congruence.
    + intros [= _ <-]. congruence.
Qed.

Lemma attempt_returns rb face s :
  exists placed s', attempt bot rb face s = (Ok placed, s').
Proof.
  unfold attempt, try_catch, bind, ret.
  destruct (placeBlock _ _ _ s) as [[[]|e] s1]; eauto.
Qed.

Lemma attempt_queried rb face s r s' :
  attempt bot rb face s = (r, s') -> queried (trace s') = queried (trace s).
Proof.
  unfold attempt, try_catch, bind, ret, placeBlock.
  destruct (call _ _ s) as [[[]|e] s1] eqn:E1;
    apply call_quiet in E1; try reflexivity; intros [= _ <-]; assumption.
Qed.

Lemma try_face_queried placePos face s r s' :
  try_face bot placePos face s = (r, s') ->
  queried (trace s') = queried (trace s) ++ [plus placePos (vector face)].
Proof.
  unfold try_face, bind.
  destruct (blockAt _ _ s) as [[ob|e] s1] eqn:E1; apply blockAt_queried in E1.
  2:{ intros [= _ <-]. assumption. }
  destruct ob as [rb|]; [|unfold ret; intros [= _ <-]; assumption].
  destruct (negb _); [|unfold ret; intros [= _ <-]; assumption].
  destruct (approach _ _ _ _ s1) as [[[]|e] s2] eqn:E2;
    apply approach_queried in E2.
  - intros H. apply attempt_queried in H. congruence.
  - intros [= _ <-]. congruence.
Qed.

(** The loop asks for the reference blocks of its faces in list order, and
    of no others. *)
Lemma for_faces_queried placePos fs s :
  exists k,
    queried (trace (snd (for_faces bot placePos fs s))) =
    queried (trace s) ++ map (fun f => plus placePos (vector f)) (firstn k fs).
Proof.
  revert s. induction fs as [|f fs IH]; intros s; simpl.
  - exists 0%nat. simpl. symmetry. apply app_nil_r.
  - unfold bind.
    destruct (try_face _ _ _ s) as [[placed|e] s1] eqn:E1;
      apply try_face_queried in E1.
    + destruct placed.
      * exists 1%nat. simpl. assumption.
      * destruct (IH s1) as [k Hk]. exists (S k). simpl.
        rewrite Hk, E1, <- app_assoc. reflexivity.
    + exists 1%nat. simpl. assumption.
Qed.

(** A loop that falls through has gone through every one of its faces. *)
Lemma for_faces_false_queried placePos fs s s' :
  for_faces bot placePos fs s = (Ok false, s') ->
  queried (trace s') =
  queried (trace s) ++ map (fun f => plus placePos (vector f)) fs.
Proof.
  revert s. induction fs as [|f fs IH]; intros s; simpl.
  - unfold ret. intros [= <-]. symmetry. apply app_nil_r.
  - unfold bind.
    destruct (try_face _ _ _ s) as [[placed|e] s1] eqn:E1;
      [|discriminate].
    apply try_face_queried in E1. destruct placed; [discriminate|].
    intros H. apply IH in H. rewrite H, E1, <- app_assoc. reflexivity.
Qed.

Lemma for_faces_app placePos pre rest s s1 :
  for_faces bot placePos pre s = (Ok false, s1) ->
  for_faces bot placePos (pre ++ rest) s = for_faces bot placePos rest s1.
Proof.
  revert s. induction pre as [|f pre IH]; intros s; simpl.
  - unfold ret. intros [= <-]. reflexivity.
  - unfold bind.
    destruct (try_face _ _ _ s) as [[placed|e] s'] eqn:E1; [|discriminate].
    destruct placed; [discriminate|]. apply IH.
Qed.

(** The body of the loop, case by case. *)
Lemma try_face_placed placePos face s rb s1 s2 s3 :
  blockAt bot (plus placePos (vector face)) s = (Ok (Some rb), s1) ->
  name rb <> "air" ->
  approach bot rb (plus placePos (vector face)) placePos s1 = (Ok tt, s2) ->
  placeBlock bot rb (scaled (vector face) (-1)) s2 = (Ok tt, s3) ->
  try_face bot placePos face s = (Ok true, s3).
Proof.
  intros H1 Hn H2 H3. unfold try_face, bind. rewrite H1.
  apply String.eqb_neq in Hn. rewrite Hn. simpl. rewrite H2.
  unfold attempt, try_catch, bind. rewrite H3. reflexivity.
Qed.

Lemma try_face_rejected placePos face s rb s1 s2 e s3 :
  blockAt bot (plus placePos (vector face)) s = (Ok (Some rb), s1) ->
  name rb <> "air" ->
  approach bot rb (plus placePos (vector face)) placePos s1 = (Ok tt, s2) ->
  placeBlock bot rb (scaled (vector face) (-1)) s2 = (Throw e, s3) ->
  try_face bot placePos face s = (Ok false, s3).
Proof.
  intros H1 Hn H2 H3. unfold try_face, bind. rewrite H1.
  apply String.eqb_neq in Hn. rewrite Hn. simpl. rewrite H2.
  unfold attempt, try_catch, bind. rewrite H3. reflexivity.
Qed.

Lemma try_face_approach_raises placePos face s rb s1 e s2 :
  blockAt bot (plus placePos (vector face)) s = (Ok (Some rb), s1) ->
  name rb <> "air" ->
  approach bot rb (plus placePos (vector face)) placePos s1 = (Throw e, s2) ->
  try_face bot placePos face s = (Throw e, s2).
Proof.
  intros H1 Hn H2. unfold try_face, bind. rewrite H1.
  apply String.eqb_neq in Hn. rewrite Hn. simpl. rewrite H2. reflexivity.
Qed.

Lemma approach_goto_raises rb referencePos placePos s s1 e s2 :
  canSeeBlock bot rb s = (Ok false, s1) ->
  goto bot (GoalNear (vx referencePos) (vy referencePos) (vz referencePos) 2) s1
    = (Throw e, s2) ->
  approach bot rb referencePos placePos s = (Throw e, s2).
Proof.
  intros H1 H2. unfold approach, bind. rewrite H1. simpl. rewrite H2.
  reflexivity.
Qed.

Lemma approach_lookAt_raises rb referencePos placePos s s1 e s2 :
  canSeeBlock bot rb s = (Ok true, s1) ->
  lookAt bot placePos true s1 = (Throw e, s2) ->
  approach bot rb referencePos placePos s = (Throw e, s2).
Proof.
  intros H1 H2. unfold approach, bind. rewrite H1. simpl. unfold ret.
  rewrite H2. reflexivity.
Qed.

Lemma placeBlockAt_returns x y z blockType s :
  exists placed s', placeBlockAt bot x y z blockType s = (Ok placed, s').
Proof.
  unfold placeBlockAt, try_catch.
  match goal with |- context [match ?m s with _ => _ end] =>
    destruct (m s) as [[b|e] s1] end; unfold ret; eauto.
Qed.

Lemma placeBlockAt_air x y z blockType s ob s0 :
  blockAt bot (mkVec3 x y z) s = (Ok ob, s0) ->
  non_air ob = false ->
  placeBlockAt bot x y z blockType s =
  try_catch (for_faces bot (mkVec3 x y z) faces) (fun _ => ret false) s0.
Proof.
  intros H1 H2. unfold placeBlockAt, try_catch, bind. rewrite H1, H2.
  reflexivity.
Qed.

End TraceFacts.

(* ================================================================== *)
(** ** The placement loops, one coordinate at a time *)

Section HandlerFacts.

Variable W : Type.
Variable bot : Bot W.
Implicit Types s : St W.

Lemma place_and_count_returns blockType x y z c s :
  exists placed s',
    placeBlockAt bot x y z blockType s = (Ok placed, s') /\
    place_and_count bot blockType x y z c s = (Ok (tally placed c), s').
Proof.
  destruct (placeBlockAt_returns bot x y z blockType s) as (placed & s' & H).
  exists placed, s'. split; [assumption|].
  unfold place_and_count, bind. rewrite H. reflexivity.
Qed.

Lemma tally_sum placed c :
  blocksPlaced (tally placed c) + blocksFailed (tally placed c) =
  blocksPlaced c + blocksFailed c + 1.
Proof. destruct placed; simpl; lia. Qed.

(** The loop never leaves early, and every coordinate moves exactly one of
    the two counters by one. *)
Lemma place_each_returns blockType cs c s :
  exists c' s',
    place_each bot blockType cs c s = (Ok c', s') /\
    blocksPlaced c' + blocksFailed c' =
    blocksPlaced c + blocksFailed c + Z.of_nat (List.length cs).
Proof.
  revert c s. induction cs as [|p cs IH]; intros c s.
  - exists c, s. split; [reflexivity|]. simpl. lia.
  - destruct (place_and_count_returns blockType (vx p) (vy p) (vz p) c s)
      as (placed & s1 & _ & H1).
    destruct (IH (tally placed c) s1) as (c' & s' & H2 & Hsum).
    exists c', s'. split.
    + unfold place_each in *. simpl. unfold bind. rewrite H1. exact H2.
    + rewrite Hsum, tally_sum. simpl List.length. lia.
Qed.

Lemma wall_loop_coords startX startY startZ d length height thickness material c s :
  wall_loop bot startX startY startZ d length height thickness material c s =
  place_each bot (or_default material)
    (wall_coords startX startY startZ d length height thickness) c s.
Proof.
  unfold wall_loop, wall_coords, place_each, for_lt.
  rewrite foldM_flat_map. apply foldM_ext. intros l c1 s1.
  rewrite foldM_flat_map. apply foldM_ext. intros h c2 s2.
  rewrite foldM_map. reflexivity.
Qed.

Lemma floor_loop_coords centerX centerY centerZ width length blockType c s :
  floor_loop bot centerX centerY centerZ width length blockType c s =
  place_each bot (or_default blockType)
    (floor_coords centerX centerY centerZ width length) c s.
Proof.
  unfold floor_loop, floor_coords, place_each, for_le.
  rewrite foldM_flat_map. apply foldM_ext. intros x c1 s1.
  rewrite foldM_map. reflexivity.
Qed.

Lemma fill_loop_coords x1 y1 z1 x2 y2 z2 blockType c s :
  fill_loop bot x1 y1 z1 x2 y2 z2 blockType c s =
  place_each bot (or_default blockType) (fill_coords x1 y1 z1 x2 y2 z2) c s.
Proof.
  unfold fill_loop, fill_coords, place_each, for_le.
  rewrite foldM_flat_map. apply foldM_ext. intros x c1 s1.
  rewrite foldM_flat_map. apply foldM_ext. intros y c2 s2.
  rewrite foldM_map. reflexivity.
Qed.

Lemma box_loop_coords x1 y1 z1 x2 y2 z2 blockType c s :
  box_loop bot x1 y1 z1 x2 y2 z2 blockType c s =
  place_each bot (or_default blockType) (box_coords x1 y1 z1 x2 y2 z2) c s.
Proof.
  unfold box_loop, box_coords, fill_coords, place_each, for_le.
  rewrite foldM_filter, foldM_flat_map. apply foldM_ext. intros x c1 s1.
  rewrite foldM_flat_map. apply foldM_ext. intros y c2 s2.
  rewrite foldM_map. reflexivity.
Qed.

End HandlerFacts.

(** ** The coordinate sequences *)

Lemma in_fill_coords x1 y1 z1 x2 y2 z2 p :
  In p (fill_coords x1 y1 z1 x2 y2 z2) <->
  Z.min x1 x2 <= vx p <= Z.max x1 x2 /\
  Z.min y1 y2 <= vy p <= Z.max y1 y2 /\
  Z.min z1 z2 <= vz p <= Z.max z1 z2.
Proof.
  unfold fill_coords. rewrite in_flat_map. split.
  - intros (x & Hx & H). apply in_flat_map in H as (y & Hy & H).
    apply in_map_iff in H as (z & <- & Hz).
    apply in_indices_le in Hx, Hy, Hz. simpl. lia.
  - intros (Hx & Hy & Hz). destruct p as [x y z]; simpl in *.
    exists x. split; [apply in_indices_le; lia|].
    apply in_flat_map. exists y. split; [apply in_indices_le; lia|].
    apply in_map_iff. exists z. split; [reflexivity|apply in_indices_le; lia].
Qed.

Lemma NoDup_fill_coords x1 y1 z1 x2 y2 z2 :
  NoDup (fill_coords x1 y1 z1 x2 y2 z2).
Proof.
  unfold fill_coords, indices_le.
  apply NoDup_flat_map; [apply NoDup_range| |].
  - intros x _. apply NoDup_flat_map; [apply NoDup_range| |].
    + intros y _. apply Injective_map_NoDup; [|apply NoDup_range].
      intros a b [= H]. exact H.
    + intros y y' b _ _ H1 H2.
      apply in_map_iff in H1 as (z & <- & _).
      apply in_map_iff in H2 as (z' & [= H _] & _). congruence.
  - intros x x' b _ _ H1 H2.
    apply in_flat_map in H1 as (y & _ & H1).
    apply in_map_iff in H1 as (z & <- & _).
    apply in_flat_map in H2 as (y' & _ & H2).
    apply in_map_iff in H2 as (z' & [= H _ _] & _). congruence.
Qed.

Lemma fill_coords_length x1 y1 z1 x2 y2 z2 :
  Z.of_nat (List.length (fill_coords x1 y1 z1 x2 y2 z2)) =
  fill_total x1 y1 z1 x2 y2 z2.
Proof.
  unfold fill_coords, fill_total.
  rewrite flat_map_length_const
    with (n := (List.length (indices_le (Z.min y1 y2) (Z.max y1 y2))
                * List.length (indices_le (Z.min z1 z2) (Z.max z1 z2)))%nat).
  - rewrite !Nat2Z.inj_mul, !indices_le_length. lia.
  - intros x _. apply flat_map_length_const. intros y _.
    apply List.length_map.
Qed.

(* ================================================================== *)
(** ** placeBlockAt: occupied targets, face order, errors *)

(** C4. When the block at the target coordinate is not air, [placeBlockAt]
    answers [false] (not placed) and the one call it has made on the bot is
    the query of the target: no movement, look-at or placement. *)
Theorem placeBlockAt_occupied_skips W (bot : Bot W) x y z blockType s b w' :
  bot_blockAt bot (mkVec3 x y z) (world s) = (Ok (Some b), w') ->
  name b <> "air" ->
  placeBlockAt bot x y z blockType s =
  (Ok false, mkSt w' (trace s ++ [EBlockAt (mkVec3 x y z)])).
Proof.
  intros Hq Hn. apply String.eqb_neq in Hn.
  unfold placeBlockAt, try_catch, bind, blockAt, call.
  rewrite Hq. simpl. rewrite Hn. reflexivity.
Qed.

Lemma placeBlockAt_occupied_skips_witness :
  placeBlockAt Demo.bot 0 0 0 "stone" (Demo.start Demo.occupied) =
  (Ok false, mkSt Demo.occupied [EBlockAt (mkVec3 0 0 0)]).
Proof.
  apply (placeBlockAt_occupied_skips Demo.bot 0 0 0 "stone"
           (Demo.start Demo.occupied) (b := mkBlock "stone" (mkVec3 0 0 0))).
  - reflexivity.
  - discriminate.
Defined.

(** C3. On an air target the reference blocks are asked for in the order
    down, north, south, east, west, up, and when the placement against the
    block of face [F] succeeds, [placeBlockAt] answers [true] in the state
    that placement left: the faces after [F] are never looked at. *)
Theorem placeBlockAt_faces_in_order W (bot : Bot W) x y z blockType s ob s0 :
  let placePos := mkVec3 x y z in
  let reference := fun f => plus placePos (vector f) in
  blockAt bot placePos s = (Ok ob, s0) ->
  non_air ob = false ->
  map direction faces = ["down"; "north"; "south"; "east"; "west"; "up"] /\
  (exists k,
     queried (trace (snd (placeBlockAt bot x y z blockType s))) =
     queried (trace s) ++ placePos :: map reference (firstn k faces)) /\
  (forall pre F post rb s1 s2 s3 s4,
     faces = pre ++ F :: post ->
     for_faces bot placePos pre s0 = (Ok false, s1) ->
     blockAt bot (reference F) s1 = (Ok (Some rb), s2) ->
     name rb <> "air" ->
     approach bot rb (reference F) placePos s2 = (Ok tt, s3) ->
     placeBlock bot rb (scaled (vector F) (-1)) s3 = (Ok tt, s4) ->
     placeBlockAt bot x y z blockType s = (Ok true, s4) /\
     queried (trace s4) =
     queried (trace s) ++ placePos :: map reference (pre ++ [F])).
Proof.
  intros placePos reference Hq Hair. subst reference placePos.
  pose proof (blockAt_queried _ _ _ Hq) as Hq0.
  split; [reflexivity|]. split.
  - rewrite (placeBlockAt_air _ _ _ _ blockType _ Hq Hair).
    destruct (for_faces_queried bot (mkVec3 x y z) faces s0) as [k Hk].
    exists k. unfold try_catch.
    destruct (for_faces bot (mkVec3 x y z) faces s0) as [[placed|e] s'];
      unfold ret; cbn [snd] in *; rewrite Hk, Hq0, <- app_assoc; reflexivity.
  - intros pre F post rb s1 s2 s3 s4 Hfaces Hpre Href Hn Happ Hplace.
    pose proof (try_face_placed _ _ _ _ Href Hn Happ Hplace) as Hstep.
    split.
    + rewrite (placeBlockAt_air _ _ _ _ blockType _ Hq Hair).
      unfold try_catch. rewrite Hfaces.
      erewrite for_faces_app by exact Hpre.
      simpl. unfold bind. rewrite Hstep. reflexivity.
    + apply try_face_queried in Hstep.
      apply for_faces_false_queried in Hpre.
      rewrite Hstep, Hpre, Hq0, map_app, <- !app_assoc. reflexivity.
Qed.

Lemma placeBlockAt_faces_in_order_witness :
  placeBlockAt Demo.bot 0 0 0 "stone" (Demo.start Demo.north_only) =
  (Ok true,
   mkSt (Demo.mkWorld [mkVec3 0 0 0; mkVec3 0 0 (-1)] [] [] [] [])
        [EBlockAt (mkVec3 0 0 0);
         EBlockAt (mkVec3 0 (-1) 0);
         EBlockAt (mkVec3 0 0 (-1));
         ECanSeeBlock (mkBlock "stone" (mkVec3 0 0 (-1)));
         ELookAt (mkVec3 0 0 0) true;
         EPlaceBlock (mkBlock "stone" (mkVec3 0 0 (-1))) (mkVec3 0 0 1)]).
Proof.
  destruct (placeBlockAt_faces_in_order Demo.bot 0 0 0 "stone"
              (Demo.start Demo.north_only) eq_refl eq_refl) as (_ & _ & H).
  eapply (H [mkFace "down" (mkVec3 0 (-1) 0)]
            (mkFace "north" (mkVec3 0 0 (-1)))).
  - reflexivity.
  - reflexivity.
  - reflexivity.
  - discriminate.
  - reflexivity.
  - reflexivity.
Defined.

(** C2, as stated, fails.  The block below the target is out of sight and
    walking towards it raises: [placeBlockAt] answers [false] with the
    refused walk as its last call.  The north face was never looked at,
    although going on with the faces after "down" from that very state
    places the block. *)
Lemma placeBlockAt_movement_error_ends_call :
  let stone_below := mkBlock "stone" (mkVec3 0 (-1) 0) in
  let r := placeBlockAt Demo.bot 0 0 0 "stone" (Demo.start Demo.blocked_path) in
  r = (Ok false,
       mkSt Demo.blocked_path
            [EBlockAt (mkVec3 0 0 0);
             EBlockAt (mkVec3 0 (-1) 0);
             ECanSeeBlock stone_below;
             EGoto (GoalNear 0 (-1) 0 2)]) /\
  bot_goto Demo.bot (GoalNear 0 (-1) 0 2) Demo.blocked_path =
    (Throw "No path to the goal!", Demo.blocked_path) /\
  ~ In (mkVec3 0 0 (-1)) (queried (trace (snd r))) /\
  fst (for_faces Demo.bot (mkVec3 0 0 0) (tl faces) (snd r)) = Ok true.
Proof.
  cbv zeta. split; [reflexivity|]. split; [reflexivity|]. split.
  - vm_compute. intros [H|[H|[]]]; discriminate H.
  - reflexivity.
Qed.

(** C2, amended.  No error leaves [placeBlockAt].  With the loop at face
    [F] over a block that is not air: when the placement raises, the call
    goes on with the faces after [F]; when the block is out of sight and the
    walk towards it raises, the call ends there with [false]. *)
Theorem placeBlockAt_error_handling W (bot : Bot W) x y z blockType s ob s0
    pre F post rb s1 s2 :
  let placePos := mkVec3 x y z in
  let referencePos := plus placePos (vector F) in
  blockAt bot placePos s = (Ok ob, s0) ->
  non_air ob = false ->
  faces = pre ++ F :: post ->
  for_faces bot placePos pre s0 = (Ok false, s1) ->
  blockAt bot referencePos s1 = (Ok (Some rb), s2) ->
  name rb <> "air" ->
  (forall x' y' z' blockType' t,
     exists placed t', placeBlockAt bot x' y' z' blockType' t = (Ok placed, t')) /\
  (forall s3 e s4,
     approach bot rb referencePos placePos s2 = (Ok tt, s3) ->
     placeBlock bot rb (scaled (vector F) (-1)) s3 = (Throw e, s4) ->
     placeBlockAt bot x y z blockType s =
     try_catch (for_faces bot placePos post) (fun _ => ret false) s4) /\
  (forall s3 e s4,
     canSeeBlock bot rb s2 = (Ok false, s3) ->
     goto bot (GoalNear (vx referencePos) (vy referencePos) (vz referencePos) 2) s3
       = (Throw e, s4) ->
     placeBlockAt bot x y z blockType s = (Ok false, s4)).
Proof.
  intros placePos referencePos Hq Hair Hfaces Hpre Href Hn.
  subst referencePos placePos.
  assert (Hloop :
    placeBlockAt bot x y z blockType s =
    try_catch (for_faces bot (mkVec3 x y z) (F :: post)) (fun _ => ret false) s1).
  { rewrite (placeBlockAt_air _ _ _ _ blockType _ Hq Hair).
    unfold try_catch. rewrite Hfaces.
    erewrite for_faces_app by exact Hpre. reflexivity. }
  split; [intros; apply placeBlockAt_returns|]. split.
  - intros s3 e s4 Happ Hplace. rewrite Hloop.
    unfold try_catch. simpl. unfold bind.
    rewrite (try_face_rejected _ _ _ _ Href Hn Happ Hplace). reflexivity.
  - intros s3 e s4 Hsee Hgo. rewrite Hloop.
    unfold try_catch. simpl. unfold bind.
    rewrite (try_face_approach_raises _ _ _ _ Href Hn
               (approach_goto_raises _ _ _ _ _ Hsee Hgo)).
    reflexivity.
Qed.

Lemma placeBlockAt_error_handling_witness :
  placeBlockAt Demo.bot 0 0 0 "stone" (Demo.start Demo.rejecting) =
  try_catch (for_faces Demo.bot (mkVec3 0 0 0) (tl faces)) (fun _ => ret false)
    (mkSt Demo.rejecting
       [EBlockAt (mkVec3 0 0 0);
        EBlockAt (mkVec3 0 (-1) 0);
        ECanSeeBlock (mkBlock "stone" (mkVec3 0 (-1) 0));
        ELookAt (mkVec3 0 0 0) true;
        EPlaceBlock (mkBlock "stone" (mkVec3 0 (-1) 0)) (mkVec3 0 1 0)]).
Proof.
  pose (s0 := mkSt Demo.rejecting [EBlockAt (mkVec3 0 0 0)]).
  pose (s2 := mkSt Demo.rejecting
                [EBlockAt (mkVec3 0 0 0); EBlockAt (mkVec3 0 (-1) 0)]).
  destruct (placeBlockAt_error_handling Demo.bot 0 0 0 "stone"
              (Demo.start Demo.rejecting) []
              (mkFace "down" (mkVec3 0 (-1) 0)) (tl faces)
              (ob := Some (mkBlock "air" (mkVec3 0 0 0))) (s0 := s0)
              (rb := mkBlock "stone" (mkVec3 0 (-1) 0)) (s1 := s0) (s2 := s2)
              eq_refl eq_refl eq_refl eq_refl eq_refl ltac:(discriminate))
    as (_ & H & _).
  eapply H.
  - reflexivity.
  - reflexivity.
Defined.

(* ================================================================== *)
(** ** clear-area *)

Section ClearFacts.

Variable W : Type.
Variable bot : Bot W.
Implicit Types s : St W.

Lemma get_close_queried x y z b s r s' :
  ClearArea.get_close bot x y z b s = (r, s') ->
  queried (trace s') = queried (trace s).
Proof.
  unfold ClearArea.get_close, ClearArea.out_of_reach, bind, ret,
    canDigBlock, canSeeBlock, goto.
  destruct (call (ECanDigBlock b) _ s) as [[canDig|e] s1] eqn:E1;
    (apply call_quiet in E1; [|reflexivity]).
  2:{ intros [= _ <-]. assumption. }
  destruct canDig; simpl.
  - destruct (call (ECanSeeBlock b) _ s1) as [[seen|e] s2] eqn:E2;
      (apply call_quiet in E2; [|reflexivity]).
    2:{ intros [= _ <-]. congruence. }
    destruct seen; simpl.
    + intros [= _ <-]. congruence.
    + intros H. apply call_quiet in H; [|reflexivity]. congruence.
  - intros H. apply call_quiet in H; [|reflexivity]. congruence.
Qed.

Lemma clear_at_returns x y z c s :
  exists c' s', ClearArea.clear_at bot x y z c s = (Ok c', s').
Proof.
  unfold ClearArea.clear_at, try_catch.
  match goal with |- context [match ?m s with _ => _ end] =>
    destruct (m s) as [[c'|e] s1] end; unfold ret; eauto.
Qed.

Lemma clear_at_queried x y z c s r s' :
  ClearArea.clear_at bot x y z c s = (r, s') ->
  queried (trace s') = queried (trace s) ++ [mkVec3 x y z].
Proof.
  unfold ClearArea.clear_at, try_catch, bind, ret.
  destruct (blockAt bot (mkVec3 x y z) s) as [[ob|e] s1] eqn:E1;
    apply blockAt_queried in E1.
  2:{ intros [= _ <-]. assumption. }
  destruct ob as [b|]; [|intros [= _ <-]; assumption].
  destruct (negb _); [|intros [= _ <-]; assumption].
  destruct (ClearArea.get_close bot x y z b s1) as [[[]|e] s2] eqn:E2;
    apply get_close_queried in E2.
  2:{ intros [= _ <-]. congruence. }
  unfold dig.
  destruct (call (EDig b) _ s2) as [[[]|e] s3] eqn:E3;
    (apply call_quiet in E3; [|reflexivity]);
    intros [= _ <-]; congruence.
Qed.

(** The three loops visit the coordinates of the region one by one. *)
Lemma clear_loop_coords x1 y1 z1 x2 y2 z2 c s :
  ClearArea.clear_loop bot x1 y1 z1 x2 y2 z2 c s =
  foldM (fun p => ClearArea.clear_at bot (vx p) (vy p) (vz p))
        (fill_coords x1 y1 z1 x2 y2 z2) c s.
Proof.
  unfold ClearArea.clear_loop, fill_coords, for_le.
  rewrite foldM_flat_map. apply foldM_ext. intros x c1 s1.
  rewrite foldM_flat_map. apply foldM_ext. intros y c2 s2.
  rewrite foldM_map. reflexivity.
Qed.

Lemma clear_each_returns cs c s :
  exists c' s',
    foldM (fun p => ClearArea.clear_at bot (vx p) (vy p) (vz p)) cs c s
      = (Ok c', s') /\
    queried (trace s') = queried (trace s) ++ cs.
Proof.
  revert c s. induction cs as [|p cs IH]; intros c s; simpl.
  - exists c, s. split; [reflexivity|]. symmetry. apply app_nil_r.
  - destruct (clear_at_returns (vx p) (vy p) (vz p) c s) as (c1 & s1 & H1).
    destruct (IH c1 s1) as (c' & s' & H2 & Hq).
    exists c', s'. unfold bind. rewrite H1. split; [assumption|].
    apply clear_at_queried in H1. rewrite Hq, H1, <- app_assoc.
    destruct p; reflexivity.
Qed.

End ClearFacts.

Example clear_area_strip :
  fst (ClearArea.clear_area Demo.bot 0 0 0 1 0 1 (Demo.start Demo.strip)) =
  Ok (createResponse
        "Area clearing completed! Dug 2 blocks. 0 blocks failed to dig.").
Proof. vm_compute. reflexivity. Qed.

Example clear_area_stubborn_strip :
  fst (ClearArea.clear_area Demo.bot 1 0 1 0 0 0
         (Demo.start Demo.stubborn_strip)) =
  Ok (createResponse
        "Area clearing completed! Dug 1 blocks. 1 blocks failed to dig.").
Proof. vm_compute. reflexivity. Qed.

(* ================================================================== *)
(** ** The shapes *)

(** C9.  build-box and fill-area go through the same coordinates, in the
    same order, whichever of the two corners supplies the x, the y or the z
    value: each of the three pairs can be exchanged on its own. *)
Theorem corner_order_invariance x1 y1 z1 x2 y2 z2 :
  (box_coords x2 y1 z1 x1 y2 z2 = box_coords x1 y1 z1 x2 y2 z2 /\
   box_coords x1 y2 z1 x2 y1 z2 = box_coords x1 y1 z1 x2 y2 z2 /\
   box_coords x1 y1 z2 x2 y2 z1 = box_coords x1 y1 z1 x2 y2 z2) /\
  (fill_coords x2 y1 z1 x1 y2 z2 = fill_coords x1 y1 z1 x2 y2 z2 /\
   fill_coords x1 y2 z1 x2 y1 z2 = fill_coords x1 y1 z1 x2 y2 z2 /\
   fill_coords x1 y1 z2 x2 y2 z1 = fill_coords x1 y1 z1 x2 y2 z2) /\
  (forall W (bot : Bot W) blockType c s,
     box_loop bot x2 y1 z1 x1 y2 z2 blockType c s
       = box_loop bot x1 y1 z1 x2 y2 z2 blockType c s /\
     box_loop bot x1 y2 z1 x2 y1 z2 blockType c s
       = box_loop bot x1 y1 z1 x2 y2 z2 blockType c s /\
     box_loop bot x1 y1 z2 x2 y2 z1 blockType c s
       = box_loop bot x1 y1 z1 x2 y2 z2 blockType c s /\
     fill_loop bot x2 y1 z1 x1 y2 z2 blockType c s
       = fill_loop bot x1 y1 z1 x2 y2 z2 blockType c s /\
     fill_loop bot x1 y2 z1 x2 y1 z2 blockType c s
       = fill_loop bot x1 y1 z1 x2 y2 z2 blockType c s /\
     fill_loop bot x1 y1 z2 x2 y2 z1 blockType c s
       = fill_loop bot x1 y1 z1 x2 y2 z2 blockType c s).
Proof.
  assert (Hfill :
    fill_coords x2 y1 z1 x1 y2 z2 = fill_coords x1 y1 z1 x2 y2 z2 /\
    fill_coords x1 y2 z1 x2 y1 z2 = fill_coords x1 y1 z1 x2 y2 z2 /\
    fill_coords x1 y1 z2 x2 y2 z1 = fill_coords x1 y1 z1 x2 y2 z2).
  { unfold fill_coords.
    rewrite (Z.min_comm x2 x1), (Z.max_comm x2 x1), (Z.min_comm y2 y1),
      (Z.max_comm y2 y1), (Z.min_comm z2 z1), (Z.max_comm z2 z1).
    repeat split. }
  assert (Hbox :
    box_coords x2 y1 z1 x1 y2 z2 = box_coords x1 y1 z1 x2 y2 z2 /\
    box_coords x1 y2 z1 x2 y1 z2 = box_coords x1 y1 z1 x2 y2 z2 /\
    box_coords x1 y1 z2 x2 y2 z1 = box_coords x1 y1 z1 x2 y2 z2).
  { unfold box_coords, on_shell. destruct Hfill as (-> & -> & ->).
    rewrite (Z.min_comm x2 x1), (Z.max_comm x2 x1), (Z.min_comm y2 y1),
      (Z.max_comm y2 y1), (Z.min_comm z2 z1), (Z.max_comm z2 z1).
    repeat split. }
  split; [exact Hbox|]. split; [exact Hfill|].
  intros W bot blockType c s.
  rewrite !box_loop_coords, !fill_loop_coords.
  destruct Hfill as (-> & -> & ->), Hbox as (-> & -> & ->).
  repeat split.
Qed.

(* ================================================================== *)
(** ** The block type argument *)

(** C10.  The material / blockType argument changes nothing: whatever two
    values are passed (absent included), each of the four placement
    handlers, run from the same state, returns the same response and leaves
    the same world and the same trace of bot calls; [placeBlockAt] itself
    does not depend on its [blockType]. *)
Theorem blockType_is_ignored W (bot : Bot W) (m1 m2 : option string) (s : St W) :
  (forall x y z (b1 b2 : string),
     placeBlockAt bot x y z b1 s = placeBlockAt bot x y z b2 s) /\
  (forall startX startY startZ d length height thickness,
     build_wall bot startX startY startZ d length height thickness m1 s =
     build_wall bot startX startY startZ d length height thickness m2 s) /\
  (forall centerX centerY centerZ width length,
     build_floor bot centerX centerY centerZ width length m1 s =
     build_floor bot centerX centerY centerZ width length m2 s) /\
  (forall x1 y1 z1 x2 y2 z2,
     build_box bot x1 y1 z1 x2 y2 z2 m1 s =
     build_box bot x1 y1 z1 x2 y2 z2 m2 s) /\
  (forall x1 y1 z1 x2 y2 z2,
     fill_area bot x1 y1 z1 x2 y2 z2 m1 s =
     fill_area bot x1 y1 z1 x2 y2 z2 m2 s).
Proof.
  assert (Heach : forall cs c t,
    place_each bot (or_default m1) cs c t = place_each bot (or_default m2) cs c t).
  { intros cs c t. unfold place_each. apply foldM_ext. reflexivity. }
  split; [reflexivity|]. split; [|split; [|split]].
  - intros. unfold build_wall, try_catch, bind.
    rewrite !wall_loop_coords, Heach. reflexivity.
  - intros. unfold build_floor, try_catch, bind.
    rewrite !floor_loop_coords, Heach. reflexivity.
  - intros. unfold build_box, try_catch, bind.
    rewrite !box_loop_coords, Heach. reflexivity.
  - intros. unfold fill_area, try_catch, bind.
    rewrite !fill_loop_coords, Heach. reflexivity.
Qed.

(* ================================================================== *)
(** ** The counters and the reported totals *)

(** In each of the four placement handlers the two counters together count
    the coordinates of the sequence, and the response is the summary built
    from them: the handler's own [catch] is never reached. *)
Lemma placement_tallies W (bot : Bot W) (s : St W) :
  (forall startX startY startZ d length height thickness material,
     exists c s',
       build_wall bot startX startY startZ d length height (Some thickness)
                  material s
       = (Ok (createResponse (wall_message d length height thickness c)), s') /\
       blocksPlaced c + blocksFailed c =
       Z.of_nat (List.length
                   (wall_coords startX startY startZ d length height thickness))) /\
  (forall centerX centerY centerZ width length blockType,
     exists c s',
       build_floor bot centerX centerY centerZ width length blockType s
       = (Ok (createResponse (floor_message width length c)), s') /\
       blocksPlaced c + blocksFailed c =
       Z.of_nat (List.length
                   (floor_coords centerX centerY centerZ width length))) /\
  (forall x1 y1 z1 x2 y2 z2 blockType,
     exists c s',
       build_box bot x1 y1 z1 x2 y2 z2 blockType s
       = (Ok (createResponse (box_message c)), s') /\
       blocksPlaced c + blocksFailed c =
       Z.of_nat (List.length (box_coords x1 y1 z1 x2 y2 z2))) /\
  (forall x1 y1 z1 x2 y2 z2 blockType,
     exists c s',
       fill_area bot x1 y1 z1 x2 y2 z2 blockType s
       = (Ok (createResponse (fill_message x1 y1 z1 x2 y2 z2 c)), s') /\
       blocksPlaced c + blocksFailed c =
       Z.of_nat (List.length (fill_coords x1 y1 z1 x2 y2 z2))).
Proof.
  split; [|split; [|split]]; intros.
  - destruct (place_each_returns bot (or_default material)
                (wall_coords startX startY startZ d length height thickness)
                (mkCounters 0 0) s) as (c & s' & H & Hsum).
    exists c, s'. split; [|exact Hsum].
    unfold build_wall, try_catch, bind. rewrite wall_loop_coords, H.
    reflexivity.
  - destruct (place_each_returns bot (or_default blockType)
                (floor_coords centerX centerY centerZ width length)
                (mkCounters 0 0) s) as (c & s' & H & Hsum).
    exists c, s'. split; [|exact Hsum].
    unfold build_floor, try_catch, bind. rewrite floor_loop_coords, H.
    reflexivity.
  - destruct (place_each_returns bot (or_default blockType)
                (box_coords x1 y1 z1 x2 y2 z2)
                (mkCounters 0 0) s) as (c & s' & H & Hsum).
    exists c, s'. split; [|exact Hsum].
    unfold build_box, try_catch, bind. rewrite box_loop_coords, H.
    reflexivity.
  - destruct (place_each_returns bot (or_default blockType)
                (fill_coords x1 y1 z1 x2 y2 z2)
                (mkCounters 0 0) s) as (c & s' & H & Hsum).
    exists c, s'. split; [|exact Hsum].
    unfold fill_area, try_catch, bind. rewrite fill_loop_coords, H.
    reflexivity.
Qed.

(** The total in the summary of build-wall is the number of coordinates as
    soon as no dimension is negative; the one of fill-area always is. *)
Lemma wall_total_is_attempted startX startY startZ d length height thickness :
  0 <= length -> 0 <= height -> 0 <= thickness ->
  wall_total length height thickness =
  Z.of_nat (List.length
              (wall_coords startX startY startZ d length height thickness)).
Proof.
  intros Hl Hh Ht. unfold wall_coords, wall_total.
  rewrite flat_map_length_const
    with (n := (List.length (indices_lt 0 height)
                * List.length (indices_lt 0 thickness))%nat).
  - rewrite !Nat2Z.inj_mul, !indices_lt_length. lia.
  - intros l _. apply flat_map_length_const. intros h _.
    apply List.length_map.
Qed.

(** C1, at an even width and length: build-floor with width 2 and length 2
    goes through 9 coordinates and its two counters add up to 9, but the
    total written into the summary is width*length = 4. *)
Theorem build_floor_total_mismatch :
  let r := build_floor Demo.bot 0 0 0 2 2 None (Demo.start Demo.empty) in
  List.length (floor_coords 0 0 0 2 2) = 9%nat /\
  floor_total 2 2 = 4 /\
  fst r = Ok (createResponse
    "Floor building completed! Placed 0/4 blocks. 9 blocks failed (already occupied or no support).").
Proof. cbv zeta. repeat split. Qed.

(* ================================================================== *)
(** ** The shape of the traces *)

Lemma count_app kind tr1 tr2 :
  count kind (tr1 ++ tr2) = (count kind tr1 + count kind tr2)%nat.
Proof. unfold count. rewrite filter_app, List.length_app. reflexivity. Qed.

Lemma count_le_length kind tr : (count kind tr <= List.length tr)%nat.
Proof. apply filter_length_le. Qed.

Section Appends.

Variable W : Type.
Variable P : Event -> Prop.
Implicit Types s : St W.

Lemma appends_refl s : appends P s s.
Proof. exists []. split; [symmetry; apply app_nil_r|constructor]. Qed.

Lemma appends_trans s1 s2 s3 :
  appends P s1 s2 -> appends P s2 s3 -> appends P s1 s3.
Proof.
  intros (tr1 & E1 & F1) (tr2 & E2 & F2). exists (tr1 ++ tr2). split.
  - rewrite E2, E1, app_assoc. reflexivity.
  - apply Forall_app. split; assumption.
Qed.

Lemma call_appends {A} ev (op : W -> Res A * W) s r s' :
  P ev -> call ev op s = (r, s') -> appends P s s'.
Proof.
  intros Hev H. apply call_trace in H. exists [ev]. split; [exact H|].
  constructor; [exact Hev|constructor].
Qed.

Lemma bind_appends {A B} (m : M W A) (k : A -> M W B) s r s' :
  (forall r1 s1, m s = (r1, s1) -> appends P s s1) ->
  (forall a s1 r2 s2, m s = (Ok a, s1) -> k a s1 = (r2, s2) -> appends P s1 s2) ->
  bind m k s = (r, s') -> appends P s s'.
Proof.
  intros Hm Hk. unfold bind. destruct (m s) as [[a|e] s1] eqn:E.
  - intros H. eapply appends_trans; [eapply Hm; reflexivity|].
    eapply Hk; [reflexivity|exact H].
  - intros [= _ <-]. eapply Hm; reflexivity.
Qed.

Lemma try_catch_appends {A} (body : M W A) (handler : Err -> M W A) s r s' :
  (forall r1 s1, body s = (r1, s1) -> appends P s s1) ->
  (forall e s1 r2 s2, body s = (Throw e, s1) -> handler e s1 = (r2, s2) ->
     appends P s1 s2) ->
  try_catch body handler s = (r, s') -> appends P s s'.
Proof.
  intros Hb Hh. unfold try_catch. destruct (body s) as [[a|e] s1] eqn:E.
  - intros [= _ <-]. eapply Hb; reflexivity.
  - intros H. eapply appends_trans; [eapply Hb; reflexivity|].
    eapply Hh; [reflexivity|exact H].
Qed.

Lemma foldM_appends {A C} (body : A -> C -> M W C) xs :
  (forall x c s r s', In x xs -> body x c s = (r, s') -> appends P s s') ->
  forall c s r s', foldM body xs c s = (r, s') -> appends P s s'.
Proof.
  induction xs as [|x xs IH]; intros Hbody c s r s'; simpl.
  - unfold ret. intros [= _ <-]. apply appends_refl.
  - apply bind_appends.
    + intros r1 s1 H. eapply Hbody; [left; reflexivity|exact H].
    + intros c1 s1 r2 s2 _ H. eapply IH; [|exact H].
      intros y c2 t r3 t' Hy. apply Hbody. right. exact Hy.
Qed.

End Appends.

Lemma appends_weaken W (P Q : Event -> Prop) (s s' : St W) :
  (forall ev, P ev -> Q ev) -> appends P s s' -> appends Q s s'.
Proof.
  intros HPQ (tr & E & F). exists tr. split; [exact E|].
  eapply Forall_impl; [exact HPQ|exact F].
Qed.

Section PlacingShape.

Variable W : Type.
Variable bot : Bot W.
Implicit Types s : St W.

Lemma approach_shape rb referencePos placePos s r s' :
  approach bot rb referencePos placePos s = (r, s') ->
  exists (walk : bool) tr rest,
    trace s' = trace s ++ tr /\
    [ECanSeeBlock rb]
    ++ (if walk
        then [EGoto (GoalNear (vx referencePos) (vy referencePos)
                              (vz referencePos) 2)]
        else [])
    ++ [ELookAt placePos true] = tr ++ rest /\
    (r = Ok tt -> rest = []).
Proof.
  unfold approach, bind, canSeeBlock, goto, lookAt, ret.
  destruct (call (ECanSeeBlock rb) _ s) as [[seen|e] s1] eqn:E1;
    apply call_trace in E1.
  2:{ intros [= <- <-]. exists false, [ECanSeeBlock rb], [ELookAt placePos true].
      split; [exact E1|]. split; [reflexivity|discriminate]. }
  destruct seen; simpl.
  - intros H. apply call_trace in H.
    exists false, [ECanSeeBlock rb; ELookAt placePos true], [].
    split; [rewrite H, E1, <- app_assoc; reflexivity|]. split; reflexivity.
  - destruct (call (EGoto _) _ s1) as [[[]|e] s2] eqn:E2;
      apply call_trace in E2.
    + intros H. apply call_trace in H.
      exists true. eexists. exists []. split.
      * rewrite H, E2, E1, <- !app_assoc. reflexivity.
      * split; reflexivity.
    + intros [= <- <-]. exists true. eexists.
      exists [ELookAt placePos true]. split.
      * rewrite E2, E1, <- !app_assoc. reflexivity.
      * split; [reflexivity|discriminate].
Qed.

Lemma attempt_shape rb face s r s' :
  attempt bot rb face s = (r, s') ->
  trace s' = trace s ++ [EPlaceBlock rb (scaled (vector face) (-1))] /\
  (r = Ok true \/ r = Ok false).
Proof.
  unfold attempt, try_catch, bind, ret, placeBlock.
  destruct (call _ _ s) as [[[]|e] s1] eqn:E1; apply call_trace in E1;
    intros [= <- <-]; split; auto.
Qed.

(** What one face adds to the trace: the query of its reference block and
    then a beginning of [face_script], all of it when the face returned
    [true]. *)
Lemma try_face_shape placePos face s r s' :
  try_face bot placePos face s = (r, s') ->
  exists tr,
    trace s' = trace s ++ EBlockAt (plus placePos (vector face)) :: tr /\
    ((tr = [] /\ r <> Ok true) \/
     exists rb walk rest,
       name rb <> "air" /\
       face_script placePos face rb walk = tr ++ rest /\
       (r = Ok true -> rest = [])).
Proof.
  unfold try_face, bind.
  destruct (blockAt _ _ s) as [[ob|e] s1] eqn:E1; apply call_trace in E1.
  2:{ intros [= <- <-]. exists []. split; [exact E1|]. left.
      split; [reflexivity|discriminate]. }
  assert (Hskip : ret false s1 = (r, s') ->
    exists tr,
      trace s' = trace s ++ EBlockAt (plus placePos (vector face)) :: tr /\
      ((tr = [] /\ r <> Ok true) \/
       exists rb walk rest,
         name rb <> "air" /\
         face_script placePos face rb walk = tr ++ rest /\
         (r = Ok true -> rest = []))).
  { unfold ret. intros [= <- <-]. exists []. split; [exact E1|]. left.
    split; [reflexivity|discriminate]. }
  destruct ob as [rb|]; [|exact Hskip].
  destruct (name rb =? "air")%string eqn:En; simpl; [exact Hskip|].
  apply String.eqb_neq in En. clear Hskip.
  destruct (approach _ _ _ _ s1) as [[[]|e] s2] eqn:E2;
    apply approach_shape in E2 as (walk & tra & rest & Ea & Es & Hfull).
  - intros H. apply attempt_shape in H as [Et Hr].
    rewrite (Hfull eq_refl), app_nil_r in Es.
    exists (tra ++ [EPlaceBlock rb (scaled (vector face) (-1))]). split.
    + rewrite Et, Ea, E1, <- !app_assoc. reflexivity.
    + right. exists rb, walk, []. split; [exact En|]. split; [|reflexivity].
      rewrite app_nil_r, <- Es. unfold face_script.
      rewrite <- !app_assoc. reflexivity.
  - intros [= <- <-]. exists tra. split.
    + rewrite Ea, E1, <- !app_assoc. reflexivity.
    + right.
      exists rb, walk, (rest ++ [EPlaceBlock rb (scaled (vector face) (-1))]).
      split; [exact En|]. split; [|discriminate].
      rewrite app_assoc, <- Es. unfold face_script.
      rewrite <- !app_assoc. reflexivity.
Qed.

End PlacingShape.

Lemma placing_call_incl placePos fs fs' ev :
  incl fs fs' -> placing_call placePos fs ev -> placing_call placePos fs' ev.
Proof.
  intros Hi. destruct ev; simpl; try tauto.
  - intros [H|(f & Hf & H)]; [left; exact H|right; exists f; auto].
  - intros (Hr & f & Hf & H). split; [exact Hr|exists f; auto].
  - intros (Hn & f & Hf & H). split; [exact Hn|exists f; auto].
Qed.

Lemma face_script_calls placePos fs face rb walk :
  In face fs -> name rb <> "air" ->
  Forall (placing_call placePos fs) (face_script placePos face rb walk).
Proof.
  intros Hf Hn. unfold face_script.
  repeat (apply Forall_app; split); destruct walk;
    repeat constructor; simpl; auto; exists face; auto.
Qed.

Lemma face_script_count kind placePos face rb walk tr rest n :
  (forall p f b w,
     (count kind (EBlockAt p :: face_script placePos f b w) <= n)%nat) ->
  face_script placePos face rb walk = tr ++ rest ->
  (count kind (EBlockAt (plus placePos (vector face)) :: tr) <= n)%nat.
Proof.
  intros Hn E.
  specialize (Hn (plus placePos (vector face)) face rb walk).
  rewrite E in Hn.
  change (EBlockAt (plus placePos (vector face)) :: tr ++ rest)
    with ((EBlockAt (plus placePos (vector face)) :: tr) ++ rest) in Hn.
  rewrite count_app in Hn. lia.
Qed.

Section PlacingFacts.

Variable W : Type.
Variable bot : Bot W.
Implicit Types s : St W.

Lemma try_face_calls placePos fs face s r s' :
  In face fs ->
  try_face bot placePos face s = (r, s') ->
  appends (placing_call placePos fs) s s'.
Proof.
  intros Hf H. apply try_face_shape in H as (tr & E & Hshape).
  exists (EBlockAt (plus placePos (vector face)) :: tr). split; [exact E|].
  constructor; [right; exists face; auto|].
  destruct Hshape as [[-> _]|(rb & walk & rest & Hn & Es & _)]; [constructor|].
  pose proof (@face_script_calls placePos fs face rb walk Hf Hn) as F.
  rewrite Es in F. apply Forall_app in F. tauto.
Qed.

Lemma try_face_count kind n placePos face s r s' :
  (forall p f b w,
     (count kind (EBlockAt p :: face_script placePos f b w) <= n)%nat) ->
  try_face bot placePos face s = (r, s') ->
  exists tr, trace s' = trace s ++ tr /\ (count kind tr <= n)%nat.
Proof.
  intros Hn H. apply try_face_shape in H as (tr & E & Hshape).
  exists (EBlockAt (plus placePos (vector face)) :: tr). split; [exact E|].
  destruct Hshape as [[-> _]|(rb & walk & rest & _ & Es & _)].
  - apply (@face_script_count kind placePos face
             (mkBlock "" placePos) false [] _ n Hn eq_refl).
  - eapply face_script_count; eauto.
Qed.

Lemma try_face_true placePos face s s' :
  try_face bot placePos face s = (Ok true, s') ->
  exists rb s2,
    name rb <> "air" /\
    placeBlock bot rb (scaled (vector face) (-1)) s2 = (Ok tt, s').
Proof.
  unfold try_face, bind.
  destruct (blockAt _ _ s) as [[ob|e] s1]; [|discriminate].
  destruct ob as [rb|]; [|discriminate].
  destruct (name rb =? "air")%string eqn:En; simpl; [discriminate|].
  apply String.eqb_neq in En.
  destruct (approach _ _ _ _ s1) as [[[]|e] s2]; [|discriminate].
  unfold attempt, try_catch, bind, ret.
  destruct (placeBlock _ _ _ s2) as [[[]|e] s3] eqn:Ep; [|discriminate].
  intros [= <-]. exists rb, s2. split; assumption.
Qed.

Lemma for_faces_calls placePos fs s r s' :
  for_faces bot placePos fs s = (r, s') ->
  appends (placing_call placePos fs) s s'.
Proof.
  revert s r s'. induction fs as [|f fs IH]; intros s r s'; simpl.
  - unfold ret. intros [= _ <-]. apply appends_refl.
  - apply bind_appends.
    + intros r1 s1 H. eapply try_face_calls; [left; reflexivity|exact H].
    + intros placed s1 r2 s2 _. destruct placed.
      * unfold ret. intros [= _ <-]. apply appends_refl.
      * intros H. apply IH in H. revert H. apply appends_weaken.
        intros ev. apply placing_call_incl. intros x Hx. right. exact Hx.
Qed.

Lemma for_faces_count kind n placePos fs s r s' :
  (forall p f b w,
     (count kind (EBlockAt p :: face_script placePos f b w) <= n)%nat) ->
  for_faces bot placePos fs s = (r, s') ->
  exists tr, trace s' = trace s ++ tr /\
             (count kind tr <= n * List.length fs)%nat.
Proof.
  intros Hn. revert s r s'. induction fs as [|f fs IH]; intros s r s'; simpl.
  - unfold ret. intros [= _ <-]. exists []. split.
    + symmetry. apply app_nil_r.
    + unfold count. simpl. lia.
  - unfold bind.
    destruct (try_face _ _ _ s) as [[placed|e] s1] eqn:E1;
      apply (@try_face_count kind n _ _ _ _ _ Hn) in E1 as (tr1 & Et1 & Hc1).
    + destruct placed.
      * unfold ret. intros [= _ <-]. exists tr1. split; [exact Et1|lia].
      * intros H. apply IH in H as (tr2 & Et2 & Hc2).
        exists (tr1 ++ tr2). split.
        -- rewrite Et2, Et1, app_assoc. reflexivity.
        -- rewrite count_app. lia.
    + intros [= _ <-]. exists tr1. split; [exact Et1|lia].
Qed.

Lemma for_faces_true placePos fs s s' :
  for_faces bot placePos fs s = (Ok true, s') ->
  exists f rb s2,
    In f fs /\ name rb <> "air" /\
    placeBlock bot rb (scaled (vector f) (-1)) s2 = (Ok tt, s').
Proof.
  revert s. induction fs as [|f fs IH]; intros s; simpl.
  - discriminate.
  - unfold bind.
    destruct (try_face _ _ _ s) as [[placed|e] s1] eqn:E1; [|discriminate].
    destruct placed.
    + unfold ret. intros [= <-].
      apply try_face_true in E1 as (rb & s2 & Hn & Hp).
      exists f, rb, s2. split; [left; reflexivity|]. split; assumption.
    + intros H. apply IH in H as (f' & rb & s2 & Hf & Hn & Hp).
      exists f', rb, s2. split; [right; exact Hf|]. split; assumption.
Qed.

(** A call of [placeBlockAt] taken apart: the query of the target, then
    either nothing more or the loop over the six faces. *)
Lemma placeBlockAt_parts x y z blockType s :
  exists placed s' s0,
    placeBlockAt bot x y z blockType s = (Ok placed, s') /\
    trace s0 = trace s ++ [EBlockAt (mkVec3 x y z)] /\
    ((s' = s0 /\ placed = false) \/
     exists r0,
       for_faces bot (mkVec3 x y z) faces s0 = (r0, s') /\
       (placed = true -> r0 = Ok true)).
Proof.
  unfold placeBlockAt, try_catch, bind.
  destruct (blockAt bot (mkVec3 x y z) s) as [[ob|e] s0] eqn:E0;
    pose proof (call_trace _ _ _ E0) as Ht.
  2:{ exists false, s0, s0. unfold ret. auto. }
  destruct (non_air ob).
  { exists false, s0, s0. unfold ret. auto. }
  destruct (for_faces bot (mkVec3 x y z) faces s0) as [[placed|e] s'] eqn:E1.
  - exists placed, s', s0. split; [reflexivity|]. split; [exact Ht|].
    right. exists (Ok placed). split; [exact E1|]. intros ->. reflexivity.
  - exists false, s', s0. unfold ret. split; [reflexivity|].
    split; [exact Ht|]. right. exists (Throw e).
    split; [exact E1|discriminate].
Qed.

End PlacingFacts.

Lemma count_all tr : count (fun _ => true) tr = List.length tr.
Proof. unfold count. rewrite filter_true. reflexivity. Qed.

(* ================================================================== *)
(** ** More on placeBlockAt *)

(** X1.  One call of [placeBlockAt] makes at most 31 calls on the bot: at
    most 7 block queries, 6 walks, 6 look-ats and 6 placements. *)
Theorem placeBlockAt_call_bounds W (bot : Bot W) x y z blockType (s : St W) :
  exists placed s' tr,
    placeBlockAt bot x y z blockType s = (Ok placed, s') /\
    trace s' = trace s ++ tr /\
    (List.length tr <= 31)%nat /\
    (count is_query tr <= 7)%nat /\
    (count is_walk tr <= 6)%nat /\
    (count is_look tr <= 6)%nat /\
    (count is_place tr <= 6)%nat.
Proof.
  destruct (placeBlockAt_parts bot x y z blockType s)
    as (placed & s' & s0 & Hrun & Ht0 & Hrest).
  destruct Hrest as [[-> _]|(r0 & Hloop & _)].
  - exists placed, s0, [EBlockAt (mkVec3 x y z)].
    split; [exact Hrun|]. split; [exact Ht0|].
    unfold count; simpl; lia.
  - destruct (@for_faces_count W bot (fun _ => true) 5%nat _ _ _ _ _
                ltac:(intros p f b []; unfold count; simpl; lia) Hloop)
      as (tr & Et & Hlen).
    assert (Hkind : forall kind,
      (forall p f b w,
         (count kind (EBlockAt p :: face_script (mkVec3 x y z) f b w) <= 1)%nat) ->
      (count kind tr <= 6)%nat).
    { intros kind Hk.
      destruct (@for_faces_count W bot kind 1%nat _ _ _ _ _ Hk Hloop)
        as (tr' & Et' & Hc).
      rewrite Et in Et'. apply app_inv_head in Et'. subst tr'.
      simpl in Hc. lia. }
    rewrite count_all in Hlen. simpl in Hlen.
    exists placed, s', (EBlockAt (mkVec3 x y z) :: tr).
    split; [exact Hrun|]. split.
    { rewrite Et, Ht0, <- app_assoc. reflexivity. }
    assert (Hq : (count is_query tr <= 6)%nat)
      by (apply Hkind; intros p f b []; unfold count; simpl; lia).
    assert (Hw : (count is_walk tr <= 6)%nat)
      by (apply Hkind; intros p f b []; unfold count; simpl; lia).
    assert (Hl : (count is_look tr <= 6)%nat)
      by (apply Hkind; intros p f b []; unfold count; simpl; lia).
    assert (Hp : (count is_place tr <= 6)%nat)
      by (apply Hkind; intros p f b []; unfold count; simpl; lia).
    unfold count in *. simpl. repeat split; lia.
Qed.

Lemma placeBlockAt_appends W (bot : Bot W) x y z blockType (s : St W) :
  exists placed s',
    placeBlockAt bot x y z blockType s = (Ok placed, s') /\
    appends (placing_call (mkVec3 x y z) faces) s s'.
Proof.
  destruct (placeBlockAt_parts bot x y z blockType s)
    as (placed & s' & s0 & Hrun & Ht0 & Hrest).
  exists placed, s'. split; [exact Hrun|].
  assert (H0 : appends (placing_call (mkVec3 x y z) faces) s s0).
  { exists [EBlockAt (mkVec3 x y z)]. split; [exact Ht0|].
    constructor; [left; reflexivity|constructor]. }
  destruct Hrest as [[-> _]|(r0 & Hloop & _)]; [exact H0|].
  eapply appends_trans; [exact H0|]. eapply for_faces_calls. exact Hloop.
Qed.

Lemma placing_call_no_dig placePos fs ev :
  placing_call placePos fs ev -> is_dig ev = false.
Proof. destruct ev; simpl; tauto. Qed.

(** X2.  Every call [placeBlockAt] makes is one of: a query of the target
    or of one of its six neighbours; a visibility test of a block that is
    not air; a walk to within 2 of a neighbour; a forced look at the target;
    a placement against a block that is not air, with the opposite of a
    face offset.  It never digs. *)
Theorem placeBlockAt_calls W (bot : Bot W) x y z blockType (s : St W) :
  exists placed s',
    placeBlockAt bot x y z blockType s = (Ok placed, s') /\
    appends (placing_call (mkVec3 x y z) faces) s s' /\
    appends (fun ev => is_dig ev = false) s s'.
Proof.
  destruct (placeBlockAt_appends bot x y z blockType s)
    as (placed & s' & Hrun & H).
  exists placed, s'. split; [exact Hrun|]. split; [exact H|].
  revert H. apply appends_weaken. intros ev. apply placing_call_no_dig.
Qed.

(** X3.  [placeBlockAt] answers [true] only when a [bot.placeBlock] against
    a block that is not air, with the opposite of one of the six face
    offsets, has completed, and that call is the last thing it did. *)
Theorem placeBlockAt_true_only_if_placed W (bot : Bot W) x y z blockType
    (s s' : St W) :
  placeBlockAt bot x y z blockType s = (Ok true, s') ->
  exists f rb s2,
    In f faces /\ name rb <> "air" /\
    placeBlock bot rb (scaled (vector f) (-1)) s2 = (Ok tt, s') /\
    trace s' = trace s2 ++ [EPlaceBlock rb (scaled (vector f) (-1))].
Proof.
  intros Hrun.
  destruct (placeBlockAt_parts bot x y z blockType s)
    as (placed & t' & s0 & Hrun' & _ & Hrest).
  rewrite Hrun in Hrun'. injection Hrun' as <- <-.
  destruct Hrest as [[_ [=]]|(r0 & Hloop & Hr0)].
  rewrite (Hr0 eq_refl) in Hloop.
  apply for_faces_true in Hloop as (f & rb & s2 & Hf & Hn & Hp).
  exists f, rb, s2. repeat split; try assumption.
  eapply call_trace. exact Hp.
Qed.

Lemma placeBlockAt_true_only_if_placed_witness :
  exists f rb s2,
    In f faces /\ name rb <> "air" /\
    placeBlock Demo.bot rb (scaled (vector f) (-1)) s2 =
      (Ok tt, snd (placeBlockAt Demo.bot 0 0 0 "stone"
                     (Demo.start Demo.north_only))) /\
    trace (snd (placeBlockAt Demo.bot 0 0 0 "stone"
                  (Demo.start Demo.north_only))) =
      trace s2 ++ [EPlaceBlock rb (scaled (vector f) (-1))].
Proof.
  apply (@placeBlockAt_true_only_if_placed _ Demo.bot 0 0 0 "stone"
           (Demo.start Demo.north_only)).
  reflexivity.
Defined.

Lemma foldM_cons_ok W A C (body : A -> C -> M W C) x xs c (s : St W) c1 s1 :
  body x c s = (Ok c1, s1) ->
  foldM body (x :: xs) c s = foldM body xs c1 s1.
Proof. intros H. simpl. unfold bind. rewrite H. reflexivity. Qed.

Lemma place_and_count_ok W (bot : Bot W) blockType x y z c (s : St W) placed s1 :
  placeBlockAt bot x y z blockType s = (Ok placed, s1) ->
  place_and_count bot blockType x y z c s = (Ok (tally placed c), s1).
Proof. intros H. unfold place_and_count, bind. rewrite H. reflexivity. Qed.

Section NothingToBuildOn.

Variable W : Type.
Variable bot : Bot W.

(** A set of worlds in which every block query answers air (or no block)
    and which no query leaves. *)
Variable Air : W -> Prop.
Hypothesis Air_query :
  forall w p, Air w ->
    exists ob w', bot_blockAt bot p w = (Ok ob, w') /\ non_air ob = false /\ Air w'.

Lemma blockAt_in_air p (s : St W) :
  Air (world s) ->
  exists ob w',
    blockAt bot p s = (Ok ob, mkSt w' (trace s ++ [EBlockAt p])) /\
    non_air ob = false /\ Air w'.
Proof.
  intros Hs. destruct (Air_query p Hs) as (ob & w' & Hq & Ha & Hw').
  exists ob, w'. unfold blockAt, call. rewrite Hq. auto.
Qed.

Lemma for_faces_in_air placePos fs (s : St W) :
  Air (world s) ->
  exists w',
    for_faces bot placePos fs s =
    (Ok false,
     mkSt w' (trace s ++ map (fun f => EBlockAt (plus placePos (vector f))) fs))
    /\ Air w'.
Proof.
  revert s. induction fs as [|f fs IH]; intros s Hs; simpl.
  - exists (world s). rewrite app_nil_r. destruct s; auto.
  - destruct (blockAt_in_air (plus placePos (vector f)) s Hs)
      as (ob & w1 & Hq & Ha & Hw1).
    destruct (IH (mkSt w1 (trace s ++ [EBlockAt (plus placePos (vector f))])) Hw1)
      as (w' & Hloop & Hw').
    exists w'. split; [|exact Hw'].
    unfold bind, try_face, bind. rewrite Hq.
    destruct ob as [rb|]; simpl in Ha; [rewrite Ha|]; simpl; unfold ret;
      rewrite Hloop; simpl; rewrite <- app_assoc; reflexivity.
Qed.

Lemma placeBlockAt_in_air x y z blockType (s : St W) :
  Air (world s) ->
  exists w',
    placeBlockAt bot x y z blockType s =
    (Ok false,
     mkSt w' (trace s ++
              map EBlockAt (mkVec3 x y z ::
                            map (fun f => plus (mkVec3 x y z) (vector f)) faces)))
    /\ Air w'.
Proof.
  intros Hs.
  destruct (blockAt_in_air (mkVec3 x y z) s Hs) as (ob & w0 & Hq & Ha & Hw0).
  destruct (for_faces_in_air (mkVec3 x y z) faces
              (mkSt w0 (trace s ++ [EBlockAt (mkVec3 x y z)])) Hw0)
    as (w' & Hloop & Hw').
  exists w'. split; [|exact Hw'].
  rewrite (placeBlockAt_air _ _ _ _ blockType _ Hq Ha).
  unfold try_catch. rewrite Hloop. simpl. rewrite <- app_assoc. reflexivity.
Qed.

Lemma place_each_in_air blockType cs c (s : St W) :
  Air (world s) ->
  exists s',
    place_each bot blockType cs c s =
    (Ok (mkCounters (blocksPlaced c)
                    (blocksFailed c + Z.of_nat (List.length cs))), s') /\
    Air (world s') /\
    appends (fun ev => is_query ev = true) s s'.
Proof.
  revert c s. induction cs as [|p cs IH]; intros c s Hs.
  - exists s. simpl. rewrite Z.add_0_r. destruct c. split; [reflexivity|].
    split; [exact Hs|apply appends_refl].
  - destruct (placeBlockAt_in_air (vx p) (vy p) (vz p) blockType s Hs)
      as (w1 & Hp & Hw1).
    match type of Hp with _ = (_, ?t) => set (s1 := t) in * end.
    destruct (IH (tally false c) s1 Hw1) as (s' & Hrest & Hs' & Happ).
    exists s'. split; [|split; [exact Hs'|]].
    + unfold place_each in *.
      erewrite foldM_cons_ok by (apply place_and_count_ok; exact Hp).
      rewrite Hrest.
      cbn [tally blocksPlaced blocksFailed List.length].
      rewrite Nat2Z.inj_succ. do 3 f_equal. lia.
    + eapply appends_trans; [|exact Happ].
      eexists. split; [reflexivity|].
      apply Forall_forall. intros ev Hev.
      apply in_map_iff in Hev as (q & <- & _). reflexivity.
Qed.

End NothingToBuildOn.

(** X4.  With nothing but air around (every block query answers air or no
    block), [placeBlockAt] answers [false] after exactly seven queries: the
    target, then its neighbours below, north, south, east, west and
    above; it walks, looks and places nowhere. *)
Theorem placeBlockAt_no_support W (bot : Bot W) (Air : W -> Prop)
    x y z blockType (s : St W) :
  (forall w p, Air w ->
     exists ob w',
       bot_blockAt bot p w = (Ok ob, w') /\ non_air ob = false /\ Air w') ->
  Air (world s) ->
  exists w',
    placeBlockAt bot x y z blockType s =
    (Ok false,
     mkSt w' (trace s ++
              [EBlockAt (mkVec3 x y z);
               EBlockAt (mkVec3 x (y - 1) z);
               EBlockAt (mkVec3 x y (z - 1));
               EBlockAt (mkVec3 x y (z + 1));
               EBlockAt (mkVec3 (x + 1) y z);
               EBlockAt (mkVec3 (x - 1) y z);
               EBlockAt (mkVec3 x (y + 1) z)])) /\
    Air w'.
Proof.
  intros Hair Hs.
  destruct (placeBlockAt_in_air bot Air Hair x y z blockType s Hs)
    as (w' & Hp & Hw').
  exists w'. split; [|exact Hw']. rewrite Hp. simpl. unfold plus. simpl.
  rewrite !Z.add_0_r. reflexivity.
Qed.

Lemma placeBlockAt_no_support_witness :
  exists w',
    placeBlockAt Demo.bot 5 64 5 "stone" (Demo.start Demo.empty) =
    (Ok false,
     mkSt w' ([] ++
              [EBlockAt (mkVec3 5 64 5);
               EBlockAt (mkVec3 5 (64 - 1) 5);
               EBlockAt (mkVec3 5 64 (5 - 1));
               EBlockAt (mkVec3 5 64 (5 + 1));
               EBlockAt (mkVec3 (5 + 1) 64 5);
               EBlockAt (mkVec3 (5 - 1) 64 5);
               EBlockAt (mkVec3 5 (64 + 1) 5)])) /\
    Demo.solid w' = [].
Proof.
  apply (@placeBlockAt_no_support _ Demo.bot (fun w => Demo.solid w = [])
           5 64 5 "stone" (Demo.start Demo.empty)).
  - intros w p Hw. exists (Some (mkBlock "air" p)), w.
    simpl. rewrite Hw. auto.
  - reflexivity.
Defined.

(** X5.  With nothing but air around, the four placement handlers place
    nothing: every coordinate of the sequence is counted as failed, and the
    only calls made on the bot are block queries. *)
Theorem building_in_mid_air W (bot : Bot W) (Air : W -> Prop) (s : St W) :
  (forall w p, Air w ->
     exists ob w',
       bot_blockAt bot p w = (Ok ob, w') /\ non_air ob = false /\ Air w') ->
  Air (world s) ->
  (forall startX startY startZ d length height thickness material,
     exists s',
       build_wall bot startX startY startZ d length height (Some thickness)
                  material s =
       (Ok (createResponse
              (wall_message d length height thickness
                 (mkCounters 0 (Z.of_nat (List.length
                    (wall_coords startX startY startZ d length height
                                 thickness)))))), s') /\
       appends (fun ev => is_query ev = true) s s') /\
  (forall centerX centerY centerZ width length blockType,
     exists s',
       build_floor bot centerX centerY centerZ width length blockType s =
       (Ok (createResponse
              (floor_message width length
                 (mkCounters 0 (Z.of_nat (List.length
                    (floor_coords centerX centerY centerZ width length)))))),
        s') /\
       appends (fun ev => is_query ev = true) s s') /\
  (forall x1 y1 z1 x2 y2 z2 blockType,
     exists s',
       build_box bot x1 y1 z1 x2 y2 z2 blockType s =
       (Ok (createResponse
              (box_message
                 (mkCounters 0 (Z.of_nat (List.length
                    (box_coords x1 y1 z1 x2 y2 z2)))))), s') /\
       appends (fun ev => is_query ev = true) s s') /\
  (forall x1 y1 z1 x2 y2 z2 blockType,
     exists s',
       fill_area bot x1 y1 z1 x2 y2 z2 blockType s =
       (Ok (createResponse
              (fill_message x1 y1 z1 x2 y2 z2
                 (mkCounters 0 (Z.of_nat (List.length
                    (fill_coords x1 y1 z1 x2 y2 z2)))))), s') /\
       appends (fun ev => is_query ev = true) s s').
Proof.
  intros Hair Hs.
  split; [|split; [|split]]; intros.
  - destruct (place_each_in_air bot Air Hair (or_default material)
                (wall_coords startX startY startZ d length height thickness)
                (mkCounters 0 0) s Hs) as (s' & H & _ & Happ).
    exists s'. split; [|exact Happ].
    unfold build_wall, try_catch, bind. rewrite wall_loop_coords, H.
    reflexivity.
  - destruct (place_each_in_air bot Air Hair (or_default blockType)
                (floor_coords centerX centerY centerZ width length)
                (mkCounters 0 0) s Hs) as (s' & H & _ & Happ).
    exists s'. split; [|exact Happ].
    unfold build_floor, try_catch, bind. rewrite floor_loop_coords, H.
    reflexivity.
  - destruct (place_each_in_air bot Air Hair (or_default blockType)
                (box_coords x1 y1 z1 x2 y2 z2)
                (mkCounters 0 0) s Hs) as (s' & H & _ & Happ).
    exists s'. split; [|exact Happ].
    unfold build_box, try_catch, bind. rewrite box_loop_coords, H.
    reflexivity.
  - destruct (place_each_in_air bot Air Hair (or_default blockType)
                (fill_coords x1 y1 z1 x2 y2 z2)
                (mkCounters 0 0) s Hs) as (s' & H & _ & Happ).
    exists s'. split; [|exact Happ].
    unfold fill_area, try_catch, bind. rewrite fill_loop_coords, H.
    reflexivity.
Qed.

Lemma building_in_mid_air_witness :
  exists s',
    fill_area Demo.bot 0 0 0 1 1 1 None (Demo.start Demo.empty) =
    (Ok (createResponse
           (fill_message 0 0 0 1 1 1
              (mkCounters 0 (Z.of_nat (List.length
                 (fill_coords 0 0 0 1 1 1)))))), s') /\
    appends (fun ev => is_query ev = true) (Demo.start Demo.empty) s'.
Proof.
  destruct (@building_in_mid_air _ Demo.bot (fun w => Demo.solid w = [])
              (Demo.start Demo.empty)) as (_ & _ & _ & H).
  - intros w p Hw. exists (Some (mkBlock "air" p)), w.
    simpl. rewrite Hw. auto.
  - reflexivity.
  - apply H.
Defined.

(** X6.  Apart from a refused placement, whatever raises inside
    [placeBlockAt] ends the call with [false] on the spot: a raising query
    of the target, and, with the loop at face [F], a raising query of the
    reference block, visibility test or look-at.  The faces after [F] are
    left untried. *)
Theorem placeBlockAt_other_errors W (bot : Bot W) x y z blockType (s : St W) :
  let placePos := mkVec3 x y z in
  (forall e w',
     bot_blockAt bot placePos (world s) = (Throw e, w') ->
     placeBlockAt bot x y z blockType s =
     (Ok false, mkSt w' (trace s ++ [EBlockAt placePos]))) /\
  (forall ob s0 pre F post s1 e s2,
     blockAt bot placePos s = (Ok ob, s0) ->
     non_air ob = false ->
     faces = pre ++ F :: post ->
     for_faces bot placePos pre s0 = (Ok false, s1) ->
     try_face bot placePos F s1 = (Throw e, s2) ->
     placeBlockAt bot x y z blockType s = (Ok false, s2)) /\
  (forall F s1 e s2,
     blockAt bot (plus placePos (vector F)) s1 = (Throw e, s2) ->
     try_face bot placePos F s1 = (Throw e, s2)) /\
  (forall F s1 rb s2 e s3,
     blockAt bot (plus placePos (vector F)) s1 = (Ok (Some rb), s2) ->
     name rb <> "air" ->
     canSeeBlock bot rb s2 = (Throw e, s3) ->
     try_face bot placePos F s1 = (Throw e, s3)) /\
  (forall F s1 rb s2 seen s3 s4 e s5,
     blockAt bot (plus placePos (vector F)) s1 = (Ok (Some rb), s2) ->
     name rb <> "air" ->
     canSeeBlock bot rb s2 = (Ok seen, s3) ->
     (if seen then s4 = s3
      else goto bot (GoalNear (vx (plus placePos (vector F)))
                              (vy (plus placePos (vector F)))
                              (vz (plus placePos (vector F))) 2) s3
           = (Ok tt, s4)) ->
     lookAt bot placePos true s4 = (Throw e, s5) ->
     try_face bot placePos F s1 = (Throw e, s5)).
Proof.
  intros placePos. subst placePos. repeat split.
  - intros e w' Hq. unfold placeBlockAt, try_catch, bind, blockAt, call.
    rewrite Hq. reflexivity.
  - intros ob s0 pre F post s1 e s2 Hq Hair Hfaces Hpre Hface.
    rewrite (placeBlockAt_air _ _ _ _ blockType _ Hq Hair).
    unfold try_catch. rewrite Hfaces.
    erewrite for_faces_app by exact Hpre.
    simpl. unfold bind. rewrite Hface. reflexivity.
  - intros F s1 e s2 Hq. unfold try_face, bind. rewrite Hq. reflexivity.
  - intros F s1 rb s2 e s3 Hq Hn Hsee. apply String.eqb_neq in Hn.
    unfold try_face, bind. rewrite Hq, Hn. simpl.
    unfold approach, bind. rewrite Hsee. reflexivity.
  - intros F s1 rb s2 seen s3 s4 e s5 Hq Hn Hsee Hwalk Hlook.
    apply String.eqb_neq in Hn.
    unfold try_face, bind. rewrite Hq, Hn. simpl.
    unfold approach, bind. rewrite Hsee.
    destruct seen; cbn [negb].
    + subst s4. unfold ret. rewrite Hlook. reflexivity.
    + rewrite Hwalk, Hlook. reflexivity.
Qed.

Lemma placeBlockAt_other_errors_witness :
  placeBlockAt Demo.stiff 0 0 0 "stone" (Demo.start Demo.rejecting) =
  (Ok false,
   mkSt Demo.rejecting
        [EBlockAt (mkVec3 0 0 0);
         EBlockAt (mkVec3 0 (-1) 0);
         ECanSeeBlock (mkBlock "stone" (mkVec3 0 (-1) 0));
         ELookAt (mkVec3 0 0 0) true]).
Proof.
  destruct (placeBlockAt_other_errors Demo.stiff 0 0 0 "stone"
              (Demo.start Demo.rejecting)) as (_ & Hend & _ & _ & Hlook).
  eapply (Hend _ _ [] (mkFace "down" (mkVec3 0 (-1) 0)) (tl faces)).
  - reflexivity.
  - reflexivity.
  - reflexivity.
  - reflexivity.
  - eapply (Hlook _ _ (mkBlock "stone" (mkVec3 0 (-1) 0)) _ true).
    + reflexivity.
    + discriminate.
    + reflexivity.
    + reflexivity.
    + reflexivity.
Defined.

(* ================================================================== *)
(** ** More on the handlers *)

Section HandlerCalls.

Variable W : Type.
Variable bot : Bot W.
Implicit Types s : St W.

Lemma place_each_calls (P : Event -> Prop) blockType cs :
  (forall p ev, In p cs -> placing_call p faces ev -> P ev) ->
  forall c s r s',
    place_each bot blockType cs c s = (r, s') -> appends P s s'.
Proof.
  intros HP. unfold place_each. apply foldM_appends.
  intros p c s r s' Hp. unfold place_and_count. apply bind_appends.
  - intros r1 s1 H1.
    destruct (placeBlockAt_appends bot (vx p) (vy p) (vz p) blockType s)
      as (placed & t & Hrun & Happ).
    rewrite H1 in Hrun. injection Hrun as _ <-.
    revert Happ. apply appends_weaken. intros ev. apply HP.
    destruct p; exact Hp.
  - intros a s1 r2 s2 _. unfold ret. intros [= _ <-]. apply appends_refl.
Qed.

End HandlerCalls.

(** X7.  None of the five tool handlers ever raises or answers with an
    error response: what goes wrong at a coordinate is absorbed there, so
    the handler's own [catch] is never reached. *)
Theorem handlers_never_fail W (bot : Bot W) (s : St W) :
  (forall startX startY startZ d length height thickness material,
     exists r s',
       build_wall bot startX startY startZ d length height thickness material s
       = (Ok r, s') /\ isError r = false) /\
  (forall centerX centerY centerZ width length blockType,
     exists r s',
       build_floor bot centerX centerY centerZ width length blockType s
       = (Ok r, s') /\ isError r = false) /\
  (forall x1 y1 z1 x2 y2 z2 blockType,
     exists r s',
       build_box bot x1 y1 z1 x2 y2 z2 blockType s = (Ok r, s') /\
       isError r = false) /\
  (forall x1 y1 z1 x2 y2 z2 blockType,
     exists r s',
       fill_area bot x1 y1 z1 x2 y2 z2 blockType s = (Ok r, s') /\
       isError r = false) /\
  (forall x1 y1 z1 x2 y2 z2,
     exists r s',
       ClearArea.clear_area bot x1 y1 z1 x2 y2 z2 s = (Ok r, s') /\
       isError r = false).
Proof.
  destruct (placement_tallies bot s) as (Hwall & Hfloor & Hbox & Hfill).
  repeat split.
  - intros. destruct thickness as [thickness|].
    + destruct (Hwall startX startY startZ d length height thickness material)
        as (c & s' & H & _).
      eexists. exists s'. split; [exact H|reflexivity].
    + destruct (Hwall startX startY startZ d length height 1 material)
        as (c & s' & H & _).
      eexists. exists s'. split; [exact H|reflexivity].
  - intros.
    destruct (Hfloor centerX centerY centerZ width length blockType)
      as (c & s' & H & _).
    eexists. exists s'. split; [exact H|reflexivity].
  - intros. destruct (Hbox x1 y1 z1 x2 y2 z2 blockType) as (c & s' & H & _).
    eexists. exists s'. split; [exact H|reflexivity].
  - intros. destruct (Hfill x1 y1 z1 x2 y2 z2 blockType) as (c & s' & H & _).
    eexists. exists s'. split; [exact H|reflexivity].
  - intros.
    destruct (clear_each_returns bot (fill_coords x1 y1 z1 x2 y2 z2)
                (ClearArea.mkCounters 0 0) s) as (c' & s' & H & _).
    rewrite <- clear_loop_coords in H.
    eexists. exists s'. split.
    + unfold ClearArea.clear_area, try_catch, bind. rewrite H. reflexivity.
    + reflexivity.
Qed.

(** X8.  Every call a placement handler makes on the bot belongs to the
    placement of one coordinate of its sequence: a query of that coordinate
    or of a neighbour, a visibility test, a walk to within 2 of a
    neighbour, a look at the coordinate, a placement against a block that
    is not air.  The placement handlers never dig. *)
Theorem placement_handlers_calls W (bot : Bot W) (s : St W) :
  let within (cs : list Vec3) :=
    fun ev => is_dig ev = false /\
              exists p, In p cs /\ placing_call p faces ev in
  (forall startX startY startZ d length height thickness material r s',
     build_wall bot startX startY startZ d length height (Some thickness)
                material s = (r, s') ->
     appends (within (wall_coords startX startY startZ d length height
                                  thickness)) s s') /\
  (forall centerX centerY centerZ width length blockType r s',
     build_floor bot centerX centerY centerZ width length blockType s = (r, s') ->
     appends (within (floor_coords centerX centerY centerZ width length)) s s') /\
  (forall x1 y1 z1 x2 y2 z2 blockType r s',
     build_box bot x1 y1 z1 x2 y2 z2 blockType s = (r, s') ->
     appends (within (box_coords x1 y1 z1 x2 y2 z2)) s s') /\
  (forall x1 y1 z1 x2 y2 z2 blockType r s',
     fill_area bot x1 y1 z1 x2 y2 z2 blockType s = (r, s') ->
     appends (within (fill_coords x1 y1 z1 x2 y2 z2)) s s').
Proof.
  intros within.
  assert (Hrun : forall blockType cs (loop : Counters -> M W Counters)
                        (msg : Counters -> string) r s',
    (forall c t, loop c t = place_each bot blockType cs c t) ->
    try_catch (c <- loop (mkCounters 0 0) ;; ret (createResponse (msg c)))
              (fun error => ret (createErrorResponse error)) s = (r, s') ->
    appends (within cs) s s').
  { intros blockType cs loop msg r s' Hloop.
    apply try_catch_appends.
    - intros r1 s1. apply bind_appends.
      + intros r2 s2. rewrite Hloop. apply place_each_calls.
        intros p ev Hp Hev. split.
        * eapply placing_call_no_dig. exact Hev.
        * exists p. split; assumption.
      + intros c s2 r3 s3 _. unfold ret. intros [= _ <-]. apply appends_refl.
    - intros e s1 r2 s2 _. unfold ret. intros [= _ <-]. apply appends_refl. }
  repeat split; intros.
  - eapply Hrun; [|exact H]. intros. apply wall_loop_coords.
  - eapply Hrun; [|exact H]. intros. apply floor_loop_coords.
  - eapply Hrun; [|exact H]. intros. apply box_loop_coords.
  - eapply Hrun; [|exact H]. intros. apply fill_loop_coords.
Qed.

Lemma placement_handlers_calls_witness :
  appends (fun ev => is_dig ev = false /\
                     exists p, In p (fill_coords 0 0 0 0 0 1) /\
                               placing_call p faces ev)
    (Demo.start Demo.ground)
    (snd (fill_area Demo.bot 0 0 0 0 0 1 None (Demo.start Demo.ground))).
Proof.
  destruct (placement_handlers_calls Demo.bot (Demo.start Demo.ground))
    as (_ & _ & _ & H).
  eapply H. apply surjective_pairing.
Defined.

(* ================================================================== *)
(** ** More on the shapes *)

Lemma fill_coords_cuboid x1 y1 z1 x2 y2 z2 :
  fill_coords x1 y1 z1 x2 y2 z2 =
  cuboid (Z.min x1 x2) (Z.max x1 x2) (Z.min y1 y2) (Z.max y1 y2)
         (Z.min z1 z2) (Z.max z1 z2).
Proof. reflexivity. Qed.

Lemma in_cuboid lx hx ly hy lz hz p :
  In p (cuboid lx hx ly hy lz hz) <->
  lx <= vx p <= hx /\ ly <= vy p <= hy /\ lz <= vz p <= hz.
Proof.
  unfold cuboid. rewrite in_flat_map. split.
  - intros (x & Hx & H). apply in_flat_map in H as (y & Hy & H).
    apply in_map_iff in H as (z & <- & Hz).
    apply in_indices_le in Hx, Hy, Hz. simpl. lia.
  - intros (Hx & Hy & Hz). destruct p as [x y z]; simpl in *.
    exists x. split; [apply in_indices_le; lia|].
    apply in_flat_map. exists y. split; [apply in_indices_le; lia|].
    apply in_map_iff. exists z. split; [reflexivity|apply in_indices_le; lia].
Qed.

Lemma NoDup_cuboid lx hx ly hy lz hz : NoDup (cuboid lx hx ly hy lz hz).
Proof.
  unfold cuboid, indices_le.
  apply NoDup_flat_map; [apply NoDup_range| |].
  - intros x _. apply NoDup_flat_map; [apply NoDup_range| |].
    + intros y _. apply Injective_map_NoDup; [|apply NoDup_range].
      intros a b [= H]. exact H.
    + intros y y' b _ _ H1 H2.
      apply in_map_iff in H1 as (z & <- & _).
      apply in_map_iff in H2 as (z' & [= H _] & _). congruence.
  - intros x x' b _ _ H1 H2.
    apply in_flat_map in H1 as (y & _ & H1).
    apply in_map_iff in H1 as (z & <- & _).
    apply in_flat_map in H2 as (y' & _ & H2).
    apply in_map_iff in H2 as (z' & [= H _ _] & _). congruence.
Qed.

Lemma cuboid_length lx hx ly hy lz hz :
  Z.of_nat (List.length (cuboid lx hx ly hy lz hz)) =
  Z.max 0 (hx + 1 - lx) * Z.max 0 (hy + 1 - ly) * Z.max 0 (hz + 1 - lz).
Proof.
  unfold cuboid.
  rewrite flat_map_length_const
    with (n := (List.length (indices_le ly hy)
                * List.length (indices_le lz hz))%nat).
  - rewrite !Nat2Z.inj_mul, !indices_le_length. lia.
  - intros x _. apply flat_map_length_const. intros y _.
    apply List.length_map.
Qed.

Lemma filter_all {A} (keep : A -> bool) (l : list A) :
  (forall x, In x l -> keep x = true) -> filter keep l = l.
Proof.
  intros H. apply forallb_filter_id. apply forallb_forall. exact H.
Qed.


(** X10.  A box that is at most two blocks thick along some axis has no
    interior: build-box then goes through exactly the coordinates
    fill-area goes through, in the same order. *)
Theorem build_box_thin_is_solid x1 y1 z1 x2 y2 z2 :
  Z.abs (x2 - x1) <= 1 \/ Z.abs (y2 - y1) <= 1 \/ Z.abs (z2 - z1) <= 1 ->
  box_coords x1 y1 z1 x2 y2 z2 = fill_coords x1 y1 z1 x2 y2 z2 /\
  forall W (bot : Bot W) blockType c s,
    box_loop bot x1 y1 z1 x2 y2 z2 blockType c s =
    fill_loop bot x1 y1 z1 x2 y2 z2 blockType c s.
Proof.
  intros Hthin.
  assert (E : box_coords x1 y1 z1 x2 y2 z2 = fill_coords x1 y1 z1 x2 y2 z2).
  { unfold box_coords. apply filter_all. intros p Hp.
    apply in_fill_coords in Hp. unfold on_shell, isEdge.
    rewrite !orb_true_iff, !Z.eqb_eq. lia. }
  split; [exact E|].
  intros. rewrite box_loop_coords, fill_loop_coords, E. reflexivity.
Qed.

Lemma build_box_thin_is_solid_witness :
  box_coords 0 0 0 4 1 4 = fill_coords 0 0 0 4 1 4.
Proof.
  apply (@build_box_thin_is_solid 0 0 0 4 1 4). right. left.
  vm_compute. discriminate.
Defined.

Lemma indices_lt_nil lo hi : hi <= lo -> indices_lt lo hi = [].
Proof.
  intros H. unfold indices_lt. replace (Z.to_nat (hi - lo)) with 0%nat by lia.
  reflexivity.
Qed.

Lemma indices_le_nil lo hi : hi < lo -> indices_le lo hi = [].
Proof.
  intros H. unfold indices_le.
  replace (Z.to_nat (hi + 1 - lo)) with 0%nat by lia. reflexivity.
Qed.

Lemma flat_map_nil {A B} (f : A -> list B) xs :
  (forall x, In x xs -> f x = []) -> flat_map f xs = [].
Proof.
  induction xs as [|x xs IH]; intros H; simpl; [reflexivity|].
  rewrite (H x) by (left; reflexivity). simpl.
  apply IH. intros y Hy. apply H. right. exact Hy.
Qed.

Lemma flat_map_of_map {A B C} (h : A -> B) (g : B -> list C) xs :
  flat_map g (map h xs) = flat_map (fun x => g (h x)) xs.
Proof.
  induction xs as [|x xs IH]; simpl; [reflexivity|]. rewrite IH. reflexivity.
Qed.

Lemma range_shift lo n : range lo n = map (fun i => lo + i) (range 0 n).
Proof.
  unfold range. rewrite map_map. apply map_ext. intros i. lia.
Qed.

Lemma indices_le_shift lo n :
  indices_le lo (lo + n - 1) = map (fun i => lo + i) (indices_lt 0 n).
Proof.
  unfold indices_le, indices_lt.
  replace (lo + n - 1 + 1 - lo) with (n - 0) by lia. apply range_shift.
Qed.

Lemma in_wall_coords startX startY startZ d length height thickness p :
  In p (wall_coords startX startY startZ d length height thickness) <->
  exists l h t,
    0 <= l < length /\ 0 <= h < height /\ 0 <= t < thickness /\
    p = mkVec3 (startX + deltaX d * l + deltaZ d * t) (startY + h)
               (startZ + deltaZ d * l + deltaX d * t).
Proof.
  unfold wall_coords. rewrite in_flat_map. split.
  - intros (l & Hil & H). apply in_flat_map in H as (h & Hih & H).
    apply in_map_iff in H as (t & <- & Hit).
    apply in_indices_lt in Hil, Hih, Hit.
    exists l, h, t. repeat split; lia.
  - intros (l & h & t & Hil & Hih & Hit & ->).
    exists l. split; [apply in_indices_lt; lia|].
    apply in_flat_map. exists h. split; [apply in_indices_lt; lia|].
    apply in_map_iff. exists t. split; [reflexivity|].
    apply in_indices_lt; lia.
Qed.

Lemma floor_coords_length centerX centerY centerZ width length :
  Z.of_nat (List.length (floor_coords centerX centerY centerZ width length)) =
  Z.max 0 (2 * (width / 2) + 1) * Z.max 0 (2 * (length / 2) + 1).
Proof.
  unfold floor_coords.
  rewrite flat_map_length_const
    with (n := List.length (indices_le (centerZ - length / 2)
                                       (centerZ + length / 2))).
  - rewrite Nat2Z.inj_mul, !indices_le_length. f_equal; lia.
  - intros x _. apply List.length_map.
Qed.

(** X12.  When length, height or thickness is zero or negative build-wall
    calls nothing on the bot and leaves the state as it was; its summary
    still shows the product length*height*thickness as the total. *)
Theorem build_wall_nothing_to_do startX startY startZ d length height thickness :
  length <= 0 \/ height <= 0 \/ thickness <= 0 ->
  wall_coords startX startY startZ d length height thickness = [] /\
  forall W (bot : Bot W) material (s : St W),
    build_wall bot startX startY startZ d length height (Some thickness)
               material s =
    (Ok (createResponse
           (wall_message d length height thickness (mkCounters 0 0))), s).
Proof.
  intros Hdim.
  assert (E : wall_coords startX startY startZ d length height thickness = []).
  { unfold wall_coords. destruct Hdim as [H|[H|H]].
    - rewrite (@indices_lt_nil 0 length) by lia. reflexivity.
    - apply flat_map_nil. intros l _.
      rewrite (@indices_lt_nil 0 height) by lia. reflexivity.
    - apply flat_map_nil. intros l _. apply flat_map_nil. intros h _.
      rewrite (@indices_lt_nil 0 thickness) by lia. reflexivity. }
  split; [exact E|]. intros.
  unfold build_wall, try_catch, bind. rewrite wall_loop_coords, E.
  reflexivity.
Qed.

Lemma build_wall_nothing_to_do_witness :
  build_wall Demo.bot 0 64 0 east (-2) (-3) (Some 1) None
             (Demo.start Demo.ground) =
  (Ok (createResponse
         "Wall building completed! Built a -2x-3x1 wall facing east. Placed 0/6 blocks. 0 blocks failed."),
   Demo.start Demo.ground).
Proof.
  destruct (@build_wall_nothing_to_do 0 64 0 east (-2) (-3) 1) as [_ H];
    [left; lia|].
  apply H.
Defined.

(** X13.  With a negative width or length build-floor calls nothing on the
    bot and leaves the state as it was. *)
Theorem build_floor_nothing_to_do centerX centerY centerZ width length :
  width < 0 \/ length < 0 ->
  floor_coords centerX centerY centerZ width length = [] /\
  forall W (bot : Bot W) blockType (s : St W),
    build_floor bot centerX centerY centerZ width length blockType s =
    (Ok (createResponse (floor_message width length (mkCounters 0 0))), s).
Proof.
  intros Hdim.
  assert (E : floor_coords centerX centerY centerZ width length = []).
  { unfold floor_coords. destruct Hdim as [H|H].
    - assert (width / 2 < 0) by (apply Z.div_lt_upper_bound; lia).
      rewrite (@indices_le_nil (centerX - width / 2) (centerX + width / 2))
        by lia.
      reflexivity.
    - assert (length / 2 < 0) by (apply Z.div_lt_upper_bound; lia).
      apply flat_map_nil. intros x _.
      rewrite (@indices_le_nil (centerZ - length / 2) (centerZ + length / 2))
        by lia.
      reflexivity. }
  split; [exact E|]. intros.
  unfold build_floor, try_catch, bind. rewrite floor_loop_coords, E.
  reflexivity.
Qed.

Lemma build_floor_nothing_to_do_witness :
  build_floor Demo.bot 0 0 0 (-1) 3 None (Demo.start Demo.ground) =
  (Ok (createResponse
         "Floor building completed! Placed 0/-3 blocks. 0 blocks failed (already occupied or no support)."),
   Demo.start Demo.ground).
Proof.
  destruct (@build_floor_nothing_to_do 0 0 0 (-1) 3) as [_ H]; [left; lia|].
  apply H.
Defined.

(** X15.  A wall with positive dimensions is a solid cuboid: build-wall
    goes through the points fill-area goes through between the start and
    the corner reached with l = length-1, h = height-1, t = thickness-1.
    For a wall facing east the two handlers go through them in the same
    order, so they make the same calls on the bot. *)
Theorem build_wall_is_a_fill startX startY startZ d length height thickness :
  0 < length -> 0 < height -> 0 < thickness ->
  let endX := startX + deltaX d * (length - 1) + deltaZ d * (thickness - 1) in
  let endY := startY + (height - 1) in
  let endZ := startZ + deltaZ d * (length - 1) + deltaX d * (thickness - 1) in
  (forall p,
     In p (wall_coords startX startY startZ d length height thickness) <->
     In p (fill_coords startX startY startZ endX endY endZ)) /\
  (d = east ->
   wall_coords startX startY startZ d length height thickness =
   fill_coords startX startY startZ endX endY endZ /\
   forall W (bot : Bot W) material c (s : St W),
     wall_loop bot startX startY startZ d length height thickness material c s =
     fill_loop bot startX startY startZ endX endY endZ material c s).
Proof.
  intros Hl Hh Ht endX endY endZ. split.
  - intros p. rewrite in_wall_coords, in_fill_coords. subst endX endY endZ.
    split.
    + intros (l & h & t & Hil & Hih & Hit & ->). simpl.
      destruct d; unfold deltaX, deltaZ; lia.
    + intros (Hx & Hy & Hz). destruct p as [x y z]; simpl in *.
      destruct d; unfold deltaX, deltaZ in *.
      * exists (startZ - z), (y - startY), (startX - x).
        repeat split; try lia. f_equal; lia.
      * exists (z - startZ), (y - startY), (x - startX).
        repeat split; try lia. f_equal; lia.
      * exists (x - startX), (y - startY), (z - startZ).
        repeat split; try lia. f_equal; lia.
      * exists (startX - x), (y - startY), (startZ - z).
        repeat split; try lia. f_equal; lia.
  - intros ->.
    assert (E : wall_coords startX startY startZ east length height thickness =
                fill_coords startX startY startZ endX endY endZ).
    { subst endX endY endZ. unfold wall_coords, fill_coords, deltaX, deltaZ.
      rewrite !Z.min_l, !Z.max_r by lia.
      replace (startX + 1 * (length - 1) + 0 * (thickness - 1))
        with (startX + length - 1) by lia.
      replace (startY + (height - 1)) with (startY + height - 1) by lia.
      replace (startZ + 0 * (length - 1) + 1 * (thickness - 1))
        with (startZ + thickness - 1) by lia.
      rewrite !indices_le_shift, flat_map_of_map.
      apply flat_map_ext. intros l.
      rewrite flat_map_of_map. apply flat_map_ext. intros h.
      rewrite map_map. apply map_ext. intros t. f_equal; lia. }
    split; [exact E|]. intros.
    rewrite wall_loop_coords, fill_loop_coords, E. reflexivity.
Qed.

Lemma build_wall_is_a_fill_witness :
  wall_coords 10 64 10 east 3 2 1 = fill_coords 10 64 10 12 65 10.
Proof.
  destruct (@build_wall_is_a_fill 10 64 10 east 3 2 1) as [_ H];
    [lia|lia|lia|].
  apply H. reflexivity.
Defined.

Lemma indices_le_single a : indices_le a a = [a].
Proof.
  unfold indices_le, range.
  replace (Z.to_nat (a + 1 - a)) with 1%nat by lia.
  simpl. rewrite Z.add_0_r. reflexivity.
Qed.

(** X16.  For width and length at least 0, build-floor is fill-area on the
    one-block-high cuboid from (centerX - floor(width/2), centerY,
    centerZ - floor(length/2)) to (centerX + floor(width/2), centerY,
    centerZ + floor(length/2)): the same coordinates in the same order,
    hence the same calls on the bot. *)
Theorem build_floor_is_a_fill centerX centerY centerZ width length :
  0 <= width -> 0 <= length ->
  let x1 := centerX - width / 2 in
  let z1 := centerZ - length / 2 in
  let x2 := centerX + width / 2 in
  let z2 := centerZ + length / 2 in
  floor_coords centerX centerY centerZ width length =
  fill_coords x1 centerY z1 x2 centerY z2 /\
  forall W (bot : Bot W) blockType c (s : St W),
    floor_loop bot centerX centerY centerZ width length blockType c s =
    fill_loop bot x1 centerY z1 x2 centerY z2 blockType c s.
Proof.
  intros Hw Hl x1 z1 x2 z2. subst x1 z1 x2 z2.
  pose proof (Z.div_pos width 2 Hw ltac:(lia)) as Pw.
  pose proof (Z.div_pos length 2 Hl ltac:(lia)) as Pl.
  assert (E : floor_coords centerX centerY centerZ width length =
              fill_coords (centerX - width / 2) centerY (centerZ - length / 2)
                          (centerX + width / 2) centerY (centerZ + length / 2)).
  { unfold floor_coords, fill_coords.
    rewrite !Z.min_l, !Z.max_r by lia.
    apply flat_map_ext. intros x.
    rewrite indices_le_single. cbn [flat_map]. rewrite app_nil_r.
    reflexivity. }
  split; [exact E|]. intros.
  rewrite floor_loop_coords, fill_loop_coords, E. reflexivity.
Qed.

Lemma build_floor_is_a_fill_witness :
  floor_coords 0 64 0 4 3 = fill_coords (-2) 64 (-1) 2 64 1.
Proof.
  destruct (@build_floor_is_a_fill 0 64 0 4 3) as [H _]; [lia|lia|].
  exact H.
Defined.

(* ================================================================== *)
(** ** More on clear-area *)

Lemma fill_coords_swap x1 y1 z1 x2 y2 z2 :
  fill_coords x2 y1 z1 x1 y2 z2 = fill_coords x1 y1 z1 x2 y2 z2 /\
  fill_coords x1 y2 z1 x2 y1 z2 = fill_coords x1 y1 z1 x2 y2 z2 /\
  fill_coords x1 y1 z2 x2 y2 z1 = fill_coords x1 y1 z1 x2 y2 z2.
Proof.
  unfold fill_coords.
  rewrite (Z.min_comm x2 x1), (Z.max_comm x2 x1), (Z.min_comm y2 y1),
    (Z.max_comm y2 y1), (Z.min_comm z2 z1), (Z.max_comm z2 z1).
  repeat split.
Qed.

Section ClearShape.

Variable W : Type.
Variable bot : Bot W.
Implicit Types s : St W.

Lemma get_close_shape x y z b s r s' :
  ClearArea.get_close bot x y z b s = (r, s') ->
  exists see walk : bool,
    trace s' = trace s ++ [ECanDigBlock b]
               ++ (if see then [ECanSeeBlock b] else [])
               ++ (if walk then [EGoto (GoalNear x y z 2)] else []).
Proof.
  unfold ClearArea.get_close, ClearArea.out_of_reach, bind, ret,
    canDigBlock, canSeeBlock, goto.
  destruct (call (ECanDigBlock b) _ s) as [[canDig|e] s1] eqn:E1;
    apply call_trace in E1.
  2:{ intros [= _ <-]. exists false, false. exact E1. }
  destruct canDig; simpl.
  - destruct (call (ECanSeeBlock b) _ s1) as [[seen|e] s2] eqn:E2;
      apply call_trace in E2.
    2:{ intros [= _ <-]. exists true, false.
        rewrite E2, E1, <- app_assoc. reflexivity. }
    destruct seen; simpl.
    + intros [= _ <-]. exists true, false.
      rewrite E2, E1, <- app_assoc. reflexivity.
    + intros H. apply call_trace in H. exists true, true.
      rewrite H, E2, E1, <- !app_assoc. reflexivity.
  - intros H. apply call_trace in H. exists false, true.
    rewrite H, E1, <- !app_assoc. reflexivity.
Qed.

(** What one coordinate adds to the trace and to the counters. *)
Lemma clear_at_shape x y z c s r s' :
  ClearArea.clear_at bot x y z c s = (r, s') ->
  exists c' tr,
    r = Ok c' /\
    trace s' = trace s ++ EBlockAt (mkVec3 x y z) :: tr /\
    ((tr = [] /\
      (c' = c \/
       c' = ClearArea.mkCounters (ClearArea.blocksDug c)
                                 (ClearArea.blocksFailed c + 1))) \/
     exists b see walk,
       name b <> "air" /\
       ((tr = dig_script x y z b see walk /\
         (c' = ClearArea.mkCounters (ClearArea.blocksDug c + 1)
                                    (ClearArea.blocksFailed c) \/
          c' = ClearArea.mkCounters (ClearArea.blocksDug c)
                                    (ClearArea.blocksFailed c + 1))) \/
        (tr ++ [EDig b] = dig_script x y z b see walk /\
         c' = ClearArea.mkCounters (ClearArea.blocksDug c)
                                   (ClearArea.blocksFailed c + 1)))).
Proof.
  unfold ClearArea.clear_at, try_catch, bind, ret.
  destruct (blockAt bot (mkVec3 x y z) s) as [[ob|e] s1] eqn:E1;
    apply call_trace in E1.
  2:{ intros [= <- <-]. eexists. exists []. split; [reflexivity|].
      split; [exact E1|]. left. auto. }
  assert (Hair : (Ok c, s1) = (r, s') ->
    exists c' tr,
      r = Ok c' /\
      trace s' = trace s ++ EBlockAt (mkVec3 x y z) :: tr /\
      ((tr = [] /\
        (c' = c \/
         c' = ClearArea.mkCounters (ClearArea.blocksDug c)
                                   (ClearArea.blocksFailed c + 1))) \/
       exists b see walk,
         name b <> "air" /\
         ((tr = dig_script x y z b see walk /\
           (c' = ClearArea.mkCounters (ClearArea.blocksDug c + 1)
                                      (ClearArea.blocksFailed c) \/
            c' = ClearArea.mkCounters (ClearArea.blocksDug c)
                                      (ClearArea.blocksFailed c + 1))) \/
          (tr ++ [EDig b] = dig_script x y z b see walk /\
           c' = ClearArea.mkCounters (ClearArea.blocksDug c)
                                     (ClearArea.blocksFailed c + 1))))).
  { intros [= <- <-]. exists c, []. split; [reflexivity|].
    split; [exact E1|]. left. auto. }
  destruct ob as [b|]; [|exact Hair].
  destruct (name b =? "air")%string eqn:En; simpl; [exact Hair|].
  apply String.eqb_neq in En. clear Hair.
  destruct (ClearArea.get_close bot x y z b s1) as [[[]|e] s2] eqn:E2;
    apply get_close_shape in E2 as (see & walk & E2).
  - unfold dig.
    destruct (call (EDig b) _ s2) as [[[]|e] s3] eqn:E3;
      apply call_trace in E3; intros [= <- <-];
      eexists; exists (dig_script x y z b see walk);
      (split; [reflexivity|]);
      (split; [rewrite E3, E2, E1; unfold dig_script;
               rewrite <- !app_assoc; reflexivity|]);
      right; exists b, see, walk; (split; [exact En|]); left; auto.
  - intros [= <- <-]. eexists.
    exists ([ECanDigBlock b] ++ (if see then [ECanSeeBlock b] else [])
            ++ (if walk then [EGoto (GoalNear x y z 2)] else [])).
    split; [reflexivity|].
    split; [rewrite E2, E1, <- !app_assoc; reflexivity|].
    right. exists b, see, walk. split; [exact En|]. right.
    split; [|reflexivity]. unfold dig_script. rewrite <- !app_assoc.
    reflexivity.
Qed.

Lemma dig_script_calls x y z b see walk :
  name b <> "air" ->
  Forall (clearing_call (mkVec3 x y z)) (dig_script x y z b see walk).
Proof.
  intros Hn. unfold dig_script.
  destruct see, walk; repeat constructor; simpl; auto.
Qed.

Lemma clear_at_step x y z c s r s' :
  ClearArea.clear_at bot x y z c s = (r, s') ->
  exists c' tr,
    r = Ok c' /\
    trace s' = trace s ++ tr /\
    Forall (clearing_call (mkVec3 x y z)) tr /\
    (List.length tr <= 5)%nat /\
    ClearArea.blocksDug c <= ClearArea.blocksDug c'
      <= ClearArea.blocksDug c + Z.of_nat (count is_dig tr) /\
    ClearArea.blocksFailed c <= ClearArea.blocksFailed c' /\
    ClearArea.blocksDug c' + ClearArea.blocksFailed c' <=
      ClearArea.blocksDug c + ClearArea.blocksFailed c + 1.
Proof.
  intros H. apply clear_at_shape in H as (c' & tr & -> & Et & Hshape).
  exists c', (EBlockAt (mkVec3 x y z) :: tr).
  split; [reflexivity|]. split; [exact Et|].
  destruct Hshape as [[-> Hc]|(b & see & walk & Hn & Hshape)].
  - split; [repeat constructor|]. split; [simpl; lia|].
    destruct Hc as [-> | ->]; unfold count; simpl; lia.
  - pose proof (@dig_script_calls x y z b see walk Hn) as Hcalls.
    destruct Hshape as [[-> Hc]|[Es ->]].
    + split; [constructor; [reflexivity|exact Hcalls]|].
      split; [destruct see, walk; simpl; lia|].
      destruct Hc as [-> | ->]; destruct see, walk; unfold count; simpl; lia.
    + rewrite <- Es in Hcalls. apply Forall_app in Hcalls as [Hcalls _].
      split; [constructor; [reflexivity|exact Hcalls]|].
      assert (Hlen : (List.length (tr ++ [EDig b]) <= 4)%nat)
        by (rewrite Es; destruct see, walk; simpl; lia).
      rewrite List.length_app in Hlen. simpl in Hlen.
      split; [simpl; lia|]. simpl. lia.
Qed.

End ClearShape.

Lemma clear_each_steps W (bot : Bot W) cs :
  forall c (s : St W),
  exists c' s' tr,
    foldM (fun p => ClearArea.clear_at bot (vx p) (vy p) (vz p)) cs c s
      = (Ok c', s') /\
    trace s' = trace s ++ tr /\
    Forall (fun ev => exists p, In p cs /\ clearing_call p ev) tr /\
    (List.length tr <= 5 * List.length cs)%nat /\
    ClearArea.blocksDug c <= ClearArea.blocksDug c'
      <= ClearArea.blocksDug c + Z.of_nat (count is_dig tr) /\
    ClearArea.blocksFailed c <= ClearArea.blocksFailed c' /\
    ClearArea.blocksDug c' + ClearArea.blocksFailed c' <=
      ClearArea.blocksDug c + ClearArea.blocksFailed c
      + Z.of_nat (List.length cs).
Proof.
  induction cs as [|p cs IH]; intros c s.
  - exists c, s, []. split; [reflexivity|].
    split; [symmetry; apply app_nil_r|]. split; [constructor|].
    unfold count. simpl. lia.
  - destruct (ClearArea.clear_at bot (vx p) (vy p) (vz p) c s)
      as [r1 s1] eqn:E1.
    pose proof E1 as Hstep.
    apply clear_at_step in Hstep
      as (c1 & tr1 & -> & Et1 & Hcalls1 & Hlen1 & Hdug1 & Hfail1 & Hsum1).
    destruct (IH c1 s1)
      as (c' & s' & tr2 & Hrest & Et2 & Hcalls2 & Hlen2 & Hdug2 & Hfail2 & Hsum2).
    exists c', s', (tr1 ++ tr2). split.
    { erewrite foldM_cons_ok by exact E1. exact Hrest. }
    split; [rewrite Et2, Et1, app_assoc; reflexivity|].
    split.
    { apply Forall_app. split.
      - eapply Forall_impl; [|exact Hcalls1]. intros ev Hev.
        exists p. split; [left; reflexivity|]. destruct p; exact Hev.
      - eapply Forall_impl; [|exact Hcalls2]. intros ev (q & Hq & Hev).
        exists q. split; [right; exact Hq|exact Hev]. }
    rewrite List.length_app, count_app, Nat2Z.inj_add.
    simpl List.length. lia.
Qed.

(** X17.  clear-area does the same whichever corner supplies the x, the y
    or the z value: exchanging x1 with x2, y1 with y2 or z1 with z2 leaves
    the response and every call on the bot unchanged. *)
Theorem clear_area_corner_order W (bot : Bot W) x1 y1 z1 x2 y2 z2 (s : St W) :
  ClearArea.clear_area bot x2 y1 z1 x1 y2 z2 s =
    ClearArea.clear_area bot x1 y1 z1 x2 y2 z2 s /\
  ClearArea.clear_area bot x1 y2 z1 x2 y1 z2 s =
    ClearArea.clear_area bot x1 y1 z1 x2 y2 z2 s /\
  ClearArea.clear_area bot x1 y1 z2 x2 y2 z1 s =
    ClearArea.clear_area bot x1 y1 z1 x2 y2 z2 s.
Proof.
  destruct (fill_coords_swap x1 y1 z1 x2 y2 z2) as (Ex & Ey & Ez).
  unfold ClearArea.clear_area, try_catch, bind.
  rewrite !clear_loop_coords, Ex, Ey, Ez. repeat split.
Qed.

(** X18.  In one run of clear-area every call on the bot belongs to one
    coordinate of the region: the query of that coordinate, a dig or
    visibility test, a walk to within 2 of it, or the dig of a block that
    is not air; nothing is placed and the bot's head is never turned.  At
    most five calls are made per coordinate; the counters add up to at
    most the number of coordinates, and blocksDug is at most the number of
    dig calls made. *)
Theorem clear_area_calls_and_counts W (bot : Bot W) x1 y1 z1 x2 y2 z2 (s : St W) :
  let cs := fill_coords x1 y1 z1 x2 y2 z2 in
  exists c s' tr,
    ClearArea.clear_area bot x1 y1 z1 x2 y2 z2 s =
      (Ok (createResponse (ClearArea.clear_message c)), s') /\
    trace s' = trace s ++ tr /\
    Forall (fun ev => exists p, In p cs /\ clearing_call p ev) tr /\
    count is_place tr = 0%nat /\
    count is_look tr = 0%nat /\
    (List.length tr <= 5 * List.length cs)%nat /\
    0 <= ClearArea.blocksDug c <= Z.of_nat (count is_dig tr) /\
    0 <= ClearArea.blocksFailed c /\
    ClearArea.blocksDug c + ClearArea.blocksFailed c <=
      fill_total x1 y1 z1 x2 y2 z2.
Proof.
  intros cs.
  destruct (clear_each_steps bot cs (ClearArea.mkCounters 0 0) s)
    as (c & s' & tr & Hrun & Et & Hcalls & Hlen & Hdug & Hfail & Hsum).
  exists c, s', tr. split.
  { unfold ClearArea.clear_area, try_catch, bind.
    rewrite clear_loop_coords. fold cs. rewrite Hrun. reflexivity. }
  split; [exact Et|]. split; [exact Hcalls|].
  assert (Hnone : forall kind,
    (forall p ev, clearing_call p ev -> kind ev = false) ->
    count kind tr = 0%nat).
  { intros kind Hk. unfold count. clear - Hcalls Hk.
    induction Hcalls as [|ev tr (p & _ & Hev) _ IH]; [reflexivity|].
    simpl. rewrite (Hk p ev Hev). exact IH. }
  split; [apply Hnone; intros p []; simpl; tauto|].
  split; [apply Hnone; intros p []; simpl; tauto|].
  split; [exact Hlen|].
  simpl in Hdug, Hfail, Hsum.
  pose proof (fill_coords_length x1 y1 z1 x2 y2 z2) as Hcount.
  fold cs in Hcount. lia.
Qed.

(** X19.  On a region holding nothing but air (every block query answers
    air or no block) clear-area only queries: one query per coordinate of
    the region, in order, and the summary reports 0 dug and 0 failed. *)
Theorem clear_area_of_air W (bot : Bot W) (Air : W -> Prop)
    x1 y1 z1 x2 y2 z2 (s : St W) :
  (forall w p, Air w ->
     exists ob w',
       bot_blockAt bot p w = (Ok ob, w') /\ non_air ob = false /\ Air w') ->
  Air (world s) ->
  exists w',
    ClearArea.clear_area bot x1 y1 z1 x2 y2 z2 s =
    (Ok (createResponse
           (ClearArea.clear_message (ClearArea.mkCounters 0 0))),
     mkSt w' (trace s ++ map EBlockAt (fill_coords x1 y1 z1 x2 y2 z2))) /\
    Air w'.
Proof.
  intros Hair Hs.
  assert (Hloop : forall cs c (t : St W), Air (world t) ->
    exists w',
      foldM (fun p => ClearArea.clear_at bot (vx p) (vy p) (vz p)) cs c t =
      (Ok c, mkSt w' (trace t ++ map EBlockAt cs)) /\ Air w').
  { induction cs as [|p cs IH]; intros c t Ht.
    - exists (world t). simpl. rewrite app_nil_r. destruct t; auto.
    - destruct (blockAt_in_air bot Air Hair (mkVec3 (vx p) (vy p) (vz p)) t Ht)
        as (ob & w1 & Hq & Ha & Hw1).
      destruct (IH c (mkSt w1 (trace t ++
                  [EBlockAt (mkVec3 (vx p) (vy p) (vz p))])) Hw1)
        as (w' & Hrest & Hw').
      exists w'. split; [|exact Hw'].
      erewrite foldM_cons_ok.
      + rewrite Hrest. simpl. rewrite <- app_assoc. destruct p; reflexivity.
      + unfold ClearArea.clear_at, try_catch, bind. rewrite Hq.
        destruct ob as [b|]; [|reflexivity].
        simpl in Ha. rewrite Ha. reflexivity. }
  destruct (Hloop (fill_coords x1 y1 z1 x2 y2 z2) (ClearArea.mkCounters 0 0)
              s Hs) as (w' & Hrun & Hw').
  exists w'. split; [|exact Hw'].
  unfold ClearArea.clear_area, try_catch, bind.
  rewrite clear_loop_coords, Hrun. reflexivity.
Qed.

Lemma clear_area_of_air_witness :
  exists w',
    ClearArea.clear_area Demo.bot 0 0 0 1 0 1 (Demo.start Demo.empty) =
    (Ok (createResponse
           (ClearArea.clear_message (ClearArea.mkCounters 0 0))),
     mkSt w' (trace (Demo.start Demo.empty)
              ++ map EBlockAt (fill_coords 0 0 0 1 0 1))) /\
    Demo.solid w' = [].
Proof.
  apply (@clear_area_of_air _ Demo.bot (fun w => Demo.solid w = [])
           0 0 0 1 0 1 (Demo.start Demo.empty)).
  - intros w p Hw. exists (Some (mkBlock "air" p)), w.
    simpl. rewrite Hw. auto.
  - reflexivity.
Defined.

(* ================================================================== *)
(** ** How much a placement handler asks of the bot *)

Section PlacementBounds.

Variable W : Type.
Variable bot : Bot W.
Implicit Types s : St W.

Lemma for_faces_true_places placePos fs s s' :
  for_faces bot placePos fs s = (Ok true, s') ->
  exists tr, trace s' = trace s ++ tr /\ (1 <= count is_place tr)%nat.
Proof.
  revert s. induction fs as [|f fs IH]; intros s; simpl; [discriminate|].
  unfold bind.
  destruct (try_face _ _ _ s) as [[placed|e] s1] eqn:E1; [|discriminate].
  apply try_face_shape in E1 as (tr1 & Et1 & Hshape).
  destruct placed.
  - unfold ret. intros [= <-].
    exists (EBlockAt (plus placePos (vector f)) :: tr1).
    split; [exact Et1|].
    destruct Hshape as [[_ Hne]|(rb & walk & rest & _ & Es & Hfull)];
      [congruence|].
    rewrite (Hfull eq_refl), app_nil_r in Es. subst tr1.
    destruct walk; unfold count; simpl; lia.
  - intros H. apply IH in H as (tr2 & Et2 & Hc).
    exists ((EBlockAt (plus placePos (vector f)) :: tr1) ++ tr2). split.
    + rewrite Et2, Et1, <- app_assoc. reflexivity.
    + rewrite count_app. lia.
Qed.

Lemma placeBlockAt_step x y z blockType s :
  exists placed s' tr,
    placeBlockAt bot x y z blockType s = (Ok placed, s') /\
    trace s' = trace s ++ tr /\
    (List.length tr <= 31)%nat /\
    (count is_place tr <= 6)%nat /\
    (placed = true -> (1 <= count is_place tr)%nat).
Proof.
  destruct (placeBlockAt_parts bot x y z blockType s)
    as (placed & s' & s0 & Hrun & Ht0 & Hrest).
  destruct Hrest as [[-> ->]|(r0 & Hloop & Htrue)].
  - exists false, s0, [EBlockAt (mkVec3 x y z)].
    split; [exact Hrun|]. split; [exact Ht0|].
    unfold count; simpl. repeat split; try lia; discriminate.
  - destruct (@for_faces_count W bot (fun _ => true) 5%nat _ _ _ _ _
                ltac:(intros p f b []; unfold count; simpl; lia) Hloop)
      as (tr & Et & Hlen).
    destruct (@for_faces_count W bot is_place 1%nat _ _ _ _ _
                ltac:(intros p f b []; unfold count; simpl; lia) Hloop)
      as (tr' & Et' & Hc).
    rewrite Et in Et'. apply app_inv_head in Et'. subst tr'.
    rewrite count_all in Hlen. simpl in Hlen, Hc.
    exists placed, s', (EBlockAt (mkVec3 x y z) :: tr).
    split; [exact Hrun|]. split.
    { rewrite Et, Ht0, <- app_assoc. reflexivity. }
    change (EBlockAt (mkVec3 x y z) :: tr)
      with ([EBlockAt (mkVec3 x y z)] ++ tr).
    rewrite List.length_app, count_app. unfold count at 1 3. simpl.
    repeat split; try lia.
    intros Hp. rewrite (Htrue Hp) in Hloop.
    apply for_faces_true_places in Hloop as (tr' & Et' & Hc').
    rewrite Et in Et'. apply app_inv_head in Et'. subst tr'. exact Hc'.
Qed.

Lemma place_each_bounds blockType cs :
  forall c s,
  exists c' s' tr,
    place_each bot blockType cs c s = (Ok c', s') /\
    trace s' = trace s ++ tr /\
    (List.length tr <= 31 * List.length cs)%nat /\
    (count is_place tr <= 6 * List.length cs)%nat /\
    blocksPlaced c <= blocksPlaced c' <=
      blocksPlaced c + Z.of_nat (count is_place tr) /\
    blocksFailed c <= blocksFailed c'.
Proof.
  induction cs as [|p cs IH]; intros c s.
  - exists c, s, []. split; [reflexivity|].
    split; [symmetry; apply app_nil_r|]. unfold count. simpl. lia.
  - destruct (placeBlockAt_step (vx p) (vy p) (vz p) blockType s)
      as (placed & s1 & tr1 & Hrun & Et1 & Hlen1 & Hc1 & Htrue).
    destruct (IH (tally placed c) s1)
      as (c' & s' & tr2 & Hrest & Et2 & Hlen2 & Hc2 & Hplaced & Hfailed).
    exists c', s', (tr1 ++ tr2). split.
    { unfold place_each in *.
      erewrite foldM_cons_ok by (apply place_and_count_ok; exact Hrun).
      exact Hrest. }
    split; [rewrite Et2, Et1, app_assoc; reflexivity|].
    rewrite List.length_app, count_app, Nat2Z.inj_add. simpl List.length.
    destruct placed; simpl in Hplaced, Hfailed.
    + specialize (Htrue eq_refl). lia.
    + lia.
Qed.

End PlacementBounds.

(** X20.  A placement handler going through N coordinates makes at most
    31*N calls on the bot, at most 6*N of them placements; the number of
    blocks it reports as placed is at most N and at most the number of
    placement calls it made. *)
Theorem placement_handlers_bounds W (bot : Bot W) (s : St W) :
  let bounded (cs : list Vec3) (msg : Counters -> string)
              (run : Res McpResponse * St W) :=
    exists c tr,
      fst run = Ok (createResponse (msg c)) /\
      trace (snd run) = trace s ++ tr /\
      (List.length tr <= 31 * List.length cs)%nat /\
      (count is_place tr <= 6 * List.length cs)%nat /\
      0 <= blocksPlaced c <= Z.of_nat (count is_place tr) /\
      blocksPlaced c <= Z.of_nat (List.length cs) in
  (forall startX startY startZ d length height thickness material,
     bounded (wall_coords startX startY startZ d length height thickness)
             (wall_message d length height thickness)
             (build_wall bot startX startY startZ d length height
                         (Some thickness) material s)) /\
  (forall centerX centerY centerZ width length blockType,
     bounded (floor_coords centerX centerY centerZ width length)
             (floor_message width length)
             (build_floor bot centerX centerY centerZ width length blockType s)) /\
  (forall x1 y1 z1 x2 y2 z2 blockType,
     bounded (box_coords x1 y1 z1 x2 y2 z2) box_message
             (build_box bot x1 y1 z1 x2 y2 z2 blockType s)) /\
  (forall x1 y1 z1 x2 y2 z2 blockType,
     bounded (fill_coords x1 y1 z1 x2 y2 z2)
             (fill_message x1 y1 z1 x2 y2 z2)
             (fill_area bot x1 y1 z1 x2 y2 z2 blockType s)).
Proof.
  intros bounded.
  assert (Hrun : forall blockType cs (loop : Counters -> M W Counters)
                        (msg : Counters -> string),
    (forall c t, loop c t = place_each bot blockType cs c t) ->
    bounded cs msg
      (try_catch (c <- loop (mkCounters 0 0) ;; ret (createResponse (msg c)))
                 (fun error => ret (createErrorResponse error)) s)).
  { intros blockType cs loop msg Hloop.
    destruct (place_each_bounds bot blockType cs (mkCounters 0 0) s)
      as (c & s' & tr & Hrun & Et & Hlen & Hc & Hplaced & Hfailed).
    destruct (place_each_returns bot blockType cs (mkCounters 0 0) s)
      as (c2 & s2 & Hrun2 & Hsum).
    rewrite Hrun in Hrun2. injection Hrun2 as <- <-.
    exists c, tr. unfold try_catch, bind. rewrite Hloop, Hrun.
    simpl in *. repeat split; try assumption; lia. }
  repeat split; intros.
  - eapply Hrun. intros. apply wall_loop_coords.
  - eapply Hrun. intros. apply floor_loop_coords.
  - eapply Hrun. intros. apply box_loop_coords.
  - eapply Hrun. intros. apply fill_loop_coords.
Qed.

(* ================================================================== *)
(** ** The handlers as runs of placeBlockAt *)

Lemma counts_length bs :
  placed_count bs + failed_count bs = Z.of_nat (List.length bs).
Proof.
  unfold placed_count, failed_count.
  rewrite <- Nat2Z.inj_add, <- (filter_length (fun b => b) bs). reflexivity.
Qed.

Section Runs.

Variable W : Type.
Variable bot : Bot W.
Implicit Types s : St W.

Lemma placeBlockAt_segment x y z blockType s r s' :
  placeBlockAt bot x y z blockType s = (r, s') ->
  exists rest,
    trace s' = trace s ++ EBlockAt (mkVec3 x y z) :: rest /\
    Forall (placing_call (mkVec3 x y z) faces) rest.
Proof.
  intros Hrun.
  destruct (placeBlockAt_parts bot x y z blockType s)
    as (placed & t & s0 & Hrun' & Ht0 & Hrest).
  rewrite Hrun in Hrun'. injection Hrun' as -> ->.
  destruct Hrest as [[-> _]|(r0 & Hloop & _)].
  - exists []. split; [exact Ht0|constructor].
  - apply for_faces_calls in Hloop as (rest & Et & Hcalls).
    exists rest. split; [|exact Hcalls].
    rewrite Et, Ht0, <- app_assoc. reflexivity.
Qed.

Lemma attempts_length blockType cs s bs s' :
  attempts bot blockType cs s bs s' -> List.length bs = List.length cs.
Proof. induction 1; simpl; congruence. Qed.

Lemma attempts_segmented blockType cs s bs s' :
  attempts bot blockType cs s bs s' ->
  exists tr, trace s' = trace s ++ tr /\ segmented cs tr.
Proof.
  induction 1 as [s|p cs s b s1 bs s' Hstep _ (tr & Et & segs & Ec & Hsegs)].
  - exists []. split; [symmetry; apply app_nil_r|].
    exists []. split; [reflexivity|constructor].
  - apply placeBlockAt_segment in Hstep as (rest & Et1 & Hcalls).
    exists ((EBlockAt p :: rest) ++ tr). split.
    + rewrite Et, Et1, <- app_assoc. destruct p; reflexivity.
    + exists ((EBlockAt p :: rest) :: segs). split.
      * simpl. rewrite Ec. reflexivity.
      * constructor; [|exact Hsegs].
        exists rest. split; [reflexivity|]. destruct p; exact Hcalls.
Qed.

Lemma place_each_attempts blockType cs :
  forall c s,
  exists bs s',
    attempts bot blockType cs s bs s' /\
    place_each bot blockType cs c s =
    (Ok (mkCounters (blocksPlaced c + placed_count bs)
                    (blocksFailed c + failed_count bs)), s').
Proof.
  induction cs as [|p cs IH]; intros c s.
  - exists [], s. split; [constructor|].
    unfold placed_count, failed_count. simpl. rewrite !Z.add_0_r.
    destruct c; reflexivity.
  - destruct (placeBlockAt_returns bot (vx p) (vy p) (vz p) blockType s)
      as (b & s1 & Hstep).
    destruct (IH (tally b c) s1) as (bs & s' & Hrun & Hloop).
    exists (b :: bs), s'. split; [econstructor; eassumption|].
    unfold place_each in *.
    erewrite foldM_cons_ok by (apply place_and_count_ok; exact Hstep).
    rewrite Hloop. unfold placed_count, failed_count.
    destruct b; simpl filter; simpl List.length; simpl tally;
      cbn [blocksPlaced blocksFailed]; rewrite ?Nat2Z.inj_succ;
      do 3 f_equal; lia.
Qed.

(** A handler built on a loop that is [place_each] over [cs]: its run is
    the run of [placeBlockAt] over [cs], its summary is made from the
    answers, and its trace is one stretch per coordinate. *)
Lemma placement_run blockType cs (loop : Counters -> M W Counters)
    (msg : Counters -> string) s :
  (forall c t, loop c t = place_each bot blockType cs c t) ->
  exists bs s' tr,
    try_catch (c <- loop (mkCounters 0 0) ;; ret (createResponse (msg c)))
              (fun error => ret (createErrorResponse error)) s =
    (Ok (createResponse (msg (mkCounters (placed_count bs) (failed_count bs)))),
     s') /\
    attempts bot blockType cs s bs s' /\
    trace s' = trace s ++ tr /\
    segmented cs tr.
Proof.
  intros Hloop.
  destruct (place_each_attempts blockType cs (mkCounters 0 0) s)
    as (bs & s' & Hrun & Heach).
  destruct (attempts_segmented Hrun) as (tr & Et & Hseg).
  exists bs, s', tr. split; [|auto].
  unfold try_catch, bind. rewrite Hloop, Heach. reflexivity.
Qed.

Lemma clear_each_clears cs :
  forall c s,
  exists c' s',
    clears bot cs c s c' s' /\
    foldM (fun p => ClearArea.clear_at bot (vx p) (vy p) (vz p)) cs c s
      = (Ok c', s').
Proof.
  induction cs as [|p cs IH]; intros c s.
  - exists c, s. split; [constructor|reflexivity].
  - destruct (clear_at_returns bot (vx p) (vy p) (vz p) c s)
      as (c1 & s1 & Hstep).
    destruct (IH c1 s1) as (c' & s' & Hrun & Hloop).
    exists c', s'. split; [econstructor; eassumption|].
    erewrite foldM_cons_ok by exact Hstep. exact Hloop.
Qed.

Lemma clears_queried cs c s c' s' :
  clears bot cs c s c' s' ->
  queried (trace s') = queried (trace s) ++ cs.
Proof.
  induction 1 as [c s|p cs c s c1 s1 c' s' Hstep _ IH].
  - symmetry. apply app_nil_r.
  - apply clear_at_queried in Hstep. rewrite IH, Hstep, <- app_assoc.
    destruct p; reflexivity.
Qed.

Lemma clears_split pre p post c s c' s' :
  clears bot (pre ++ p :: post) c s c' s' ->
  exists c0 s0 c1 s1,
    clears bot pre c s c0 s0 /\
    ClearArea.clear_at bot (vx p) (vy p) (vz p) c0 s0 = (Ok c1, s1) /\
    clears bot post c1 s1 c' s'.
Proof.
  revert c s. induction pre as [|q pre IH]; intros c s H; simpl in H.
  - inversion H; subst. exists c, s. eexists. eexists.
    split; [constructor|]. split; eassumption.
  - inversion H; subst.
    match goal with Hrest : clears _ (pre ++ _) _ _ _ _ |- _ =>
      apply IH in Hrest as (c0 & s0 & c2 & s2 & Hpre & Hstep & Hpost) end.
    exists c0, s0, c2, s2. split; [econstructor; eassumption|].
    split; assumption.
Qed.

End Runs.

(* ================================================================== *)
(** ** The shapes, on the handlers' own runs *)

(** C5.  For each of the four directions and positive length, height and
    thickness, a run of build-wall is one [placeBlockAt] per element of
    [wall_coords], in order, each started in the state the one before
    left, and its trace is one stretch of calls per element, opened by the
    query of that coordinate.  These are length*height*thickness
    coordinates, no two alike, namely the points (startX + dx*l + dz*t,
    startY + h, startZ + dz*l + dx*t) with 0 <= l < length, 0 <= h < height,
    0 <= t < thickness, (dx, dz) being the unit vector of the direction. *)
Theorem build_wall_coordinates startX startY startZ d length height thickness :
  0 < length -> 0 < height -> 0 < thickness ->
  let dx := deltaX d in
  let dz := deltaZ d in
  let cs := wall_coords startX startY startZ d length height thickness in
  (dx, dz) = match d with
             | north => (0, -1) | south => (0, 1)
             | east => (1, 0) | west => (-1, 0)
             end /\
  (forall W (bot : Bot W) material c s,
     wall_loop bot startX startY startZ d length height thickness material c s
     = place_each bot (or_default material) cs c s) /\
  Z.of_nat (List.length cs) = length * height * thickness /\
  NoDup cs /\
  (forall p, In p cs <->
     exists l h t,
       0 <= l < length /\ 0 <= h < height /\ 0 <= t < thickness /\
       p = mkVec3 (startX + dx * l + dz * t) (startY + h)
                  (startZ + dz * l + dx * t)) /\
  (forall W (bot : Bot W) material (s : St W),
     exists bs s' tr,
       build_wall bot startX startY startZ d length height (Some thickness)
                  material s =
       (Ok (createResponse
              (wall_message d length height thickness
                 (mkCounters (placed_count bs) (failed_count bs)))), s') /\
       attempts bot (or_default material) cs s bs s' /\
       trace s' = trace s ++ tr /\
       segmented cs tr /\
       Z.of_nat (List.length bs) = length * height * thickness).
Proof.
  intros Hl Hh Ht dx dz cs. subst dx dz cs.
  split; [destruct d; reflexivity|].
  split; [intros; apply wall_loop_coords|].
  split; [|split; [|split]].
  4:{ intros W bot material s.
      destruct (placement_run bot (or_default material)
                  (wall_coords startX startY startZ d length height thickness)
                  (wall_loop bot startX startY startZ d length height
                             thickness material)
                  (wall_message d length height thickness) s
                  (fun c t => wall_loop_coords bot startX startY startZ d
                                length height thickness material c t))
        as (bs & s' & tr & Hrun & Hatt & Et & Hseg).
      exists bs, s', tr. repeat split; try assumption.
      rewrite (attempts_length Hatt).
      rewrite <- (@wall_total_is_attempted startX startY startZ d
                    length height thickness) by lia.
      reflexivity. }
  - unfold wall_coords.
    rewrite flat_map_length_const
      with (n := (List.length (indices_lt 0 height)
                  * List.length (indices_lt 0 thickness))%nat).
    + rewrite !Nat2Z.inj_mul, !indices_lt_length. lia.
    + intros l _. apply flat_map_length_const. intros h _.
      apply List.length_map.
  - unfold wall_coords, indices_lt.
    apply NoDup_flat_map; [apply NoDup_range| |].
    + intros l _. apply NoDup_flat_map; [apply NoDup_range| |].
      * intros h _. apply Injective_map_NoDup; [|apply NoDup_range].
        intros a b [= H1 H2]. destruct d; unfold deltaX, deltaZ in *; lia.
      * intros h h' b _ _ H1 H2.
        apply in_map_iff in H1 as (t & <- & _).
        apply in_map_iff in H2 as (t' & [= _ H _] & _). lia.
    + intros l l' b Hl1 Hl2 H1 H2.
      apply in_flat_map in H1 as (h & _ & H1).
      apply in_map_iff in H1 as (t & <- & _).
      apply in_flat_map in H2 as (h' & _ & H2).
      apply in_map_iff in H2 as (t' & [= Hx _ Hz] & _).
      destruct d; unfold deltaX, deltaZ in *; lia.
  - intros p. unfold wall_coords. rewrite in_flat_map. split.
    + intros (l & Hil & H). apply in_flat_map in H as (h & Hih & H).
      apply in_map_iff in H as (t & <- & Hit).
      apply in_indices_lt in Hil, Hih, Hit.
      exists l, h, t. repeat split; lia.
    + intros (l & h & t & Hil & Hih & Hit & ->).
      exists l. split; [apply in_indices_lt; lia|].
      apply in_flat_map. exists h. split; [apply in_indices_lt; lia|].
      apply in_map_iff. exists t. split; [reflexivity|].
      apply in_indices_lt; lia.
Qed.

Lemma build_wall_coordinates_witness :
  wall_coords 0 64 0 north 2 2 1 =
  [mkVec3 0 64 0; mkVec3 0 65 0; mkVec3 0 64 (-1); mkVec3 0 65 (-1)] /\
  Z.of_nat (List.length (wall_coords 0 64 0 north 2 2 1)) = 2 * 2 * 1 /\
  NoDup (wall_coords 0 64 0 north 2 2 1) /\
  exists bs s' tr,
    build_wall Demo.bot 0 64 0 north 2 2 (Some 1) None
               (Demo.start Demo.empty) =
    (Ok (createResponse
           (wall_message north 2 2 1
              (mkCounters (placed_count bs) (failed_count bs)))), s') /\
    attempts Demo.bot (or_default None) (wall_coords 0 64 0 north 2 2 1)
             (Demo.start Demo.empty) bs s' /\
    trace s' = trace (Demo.start Demo.empty) ++ tr /\
    segmented (wall_coords 0 64 0 north 2 2 1) tr /\
    Z.of_nat (List.length bs) = 2 * 2 * 1.
Proof.
  split; [reflexivity|].
  destruct (@build_wall_coordinates 0 64 0 north 2 2 1)
    as (_ & _ & Hlen & Hnd & _ & Hrun); [lia | lia | lia |].
  split; [exact Hlen|]. split; [exact Hnd|]. apply Hrun.
Defined.


(** C6.  For width and length at least 0, a run of build-floor is one
    [placeBlockAt] per element of [floor_coords], in order, each started in
    the state the one before left, and its trace is one stretch of calls
    per element, opened by the query of that coordinate.  These are
    (2*floor(width/2)+1) * (2*floor(length/2)+1) coordinates, the points at
    height centerY whose x is within floor(width/2) of centerX and whose z
    is within floor(length/2) of centerZ; a width (a length) of 0 or 1
    leaves centerX (centerZ) as the only value on its axis. *)
Theorem build_floor_coordinates centerX centerY centerZ width length :
  0 <= width -> 0 <= length ->
  let cs := floor_coords centerX centerY centerZ width length in
  (forall W (bot : Bot W) blockType c s,
     floor_loop bot centerX centerY centerZ width length blockType c s
     = place_each bot (or_default blockType) cs c s) /\
  Z.of_nat (List.length cs) = (2 * (width / 2) + 1) * (2 * (length / 2) + 1) /\
  NoDup cs /\
  (forall p, In p cs <->
     centerX - width / 2 <= vx p <= centerX + width / 2 /\
     vy p = centerY /\
     centerZ - length / 2 <= vz p <= centerZ + length / 2) /\
  (width = 0 \/ width = 1 -> forall p, In p cs -> vx p = centerX) /\
  (length = 0 \/ length = 1 -> forall p, In p cs -> vz p = centerZ) /\
  (forall W (bot : Bot W) blockType (s : St W),
     exists bs s' tr,
       build_floor bot centerX centerY centerZ width length blockType s =
       (Ok (createResponse
              (floor_message width length
                 (mkCounters (placed_count bs) (failed_count bs)))), s') /\
       attempts bot (or_default blockType) cs s bs s' /\
       trace s' = trace s ++ tr /\
       segmented cs tr /\
       Z.of_nat (List.length bs) =
         (2 * (width / 2) + 1) * (2 * (length / 2) + 1)).
Proof.
  intros Hw Hl cs. subst cs.
  assert (Hin : forall p,
    In p (floor_coords centerX centerY centerZ width length) <->
    centerX - width / 2 <= vx p <= centerX + width / 2 /\
    vy p = centerY /\
    centerZ - length / 2 <= vz p <= centerZ + length / 2).
  { intros p. unfold floor_coords. rewrite in_flat_map. split.
    - intros (x & Hx & H). apply in_map_iff in H as (z & <- & Hz).
      apply in_indices_le in Hx, Hz. simpl. lia.
    - intros (Hx & Hy & Hz). destruct p as [x y z]; simpl in *. subst y.
      exists x. split; [apply in_indices_le; lia|].
      apply in_map_iff. exists z. split; [reflexivity|].
      apply in_indices_le; lia. }
  pose proof (Z.div_pos width 2 Hw ltac:(lia)) as Hhw.
  pose proof (Z.div_pos length 2 Hl ltac:(lia)) as Hhl.
  split; [intros; apply floor_loop_coords|].
  split; [|split; [|split; [exact Hin|split; [|split]]]].
  5:{ intros W bot blockType s.
      destruct (placement_run bot (or_default blockType)
                  (floor_coords centerX centerY centerZ width length)
                  (floor_loop bot centerX centerY centerZ width length
                              blockType)
                  (floor_message width length) s
                  (fun c t => floor_loop_coords bot centerX centerY centerZ
                                width length blockType c t))
        as (bs & s' & tr & Hrun & Hatt & Et & Hseg).
      exists bs, s', tr. repeat split; try assumption.
      rewrite (attempts_length Hatt), floor_coords_length. lia. }
  - unfold floor_coords.
    rewrite flat_map_length_const
      with (n := List.length (indices_le (centerZ - length / 2)
                                         (centerZ + length / 2))).
    + rewrite Nat2Z.inj_mul, !indices_le_length. lia.
    + intros x _. apply List.length_map.
  - unfold floor_coords, indices_le.
    apply NoDup_flat_map; [apply NoDup_range| |].
    + intros x _. apply Injective_map_NoDup; [|apply NoDup_range].
      intros a b [= H]. exact H.
    + intros x x' b _ _ H1 H2.
      apply in_map_iff in H1 as (z & <- & _).
      apply in_map_iff in H2 as (z' & [= H _] & _). congruence.
  - intros Hsmall p Hp. apply Hin in Hp.
    assert (width / 2 = 0) as E by (destruct Hsmall; subst; reflexivity).
    lia.
  - intros Hsmall p Hp. apply Hin in Hp.
    assert (length / 2 = 0) as E by (destruct Hsmall; subst; reflexivity).
    lia.
Qed.

Lemma build_floor_coordinates_witness :
  Z.of_nat (List.length (floor_coords 10 64 10 2 1)) = 3 * 1 /\
  (forall p, In p (floor_coords 10 64 10 2 1) -> vz p = 10) /\
  exists bs s' tr,
    build_floor Demo.bot 10 64 10 2 1 None (Demo.start Demo.empty) =
    (Ok (createResponse
           (floor_message 2 1
              (mkCounters (placed_count bs) (failed_count bs)))), s') /\
    attempts Demo.bot (or_default None) (floor_coords 10 64 10 2 1)
             (Demo.start Demo.empty) bs s' /\
    trace s' = trace (Demo.start Demo.empty) ++ tr /\
    segmented (floor_coords 10 64 10 2 1) tr /\
    Z.of_nat (List.length bs) = (2 * (2 / 2) + 1) * (2 * (1 / 2) + 1).
Proof.
  destruct (@build_floor_coordinates 10 64 10 2 1)
    as (_ & Hlen & _ & _ & _ & Hz & Hrun); [lia | lia |].
  split; [exact Hlen|]. split; [apply Hz; right; reflexivity|]. apply Hrun.
Defined.


(** C7.  A run of build-box is one [placeBlockAt] per element of
    [box_coords], in order, each started in the state the one before left,
    and its trace is one stretch of calls per element, opened by the query
    of that coordinate.  The elements are the points of the cuboid spanned
    by the two corners, taken between the minimum and the maximum on each
    axis, that have at least one coordinate equal to the minimum or maximum
    of its axis, each once.  A point strictly inside on all three axes is
    not among them. *)
Theorem build_box_coordinates x1 y1 z1 x2 y2 z2 :
  let minX := Z.min x1 x2 in
  let maxX := Z.max x1 x2 in
  let minY := Z.min y1 y2 in
  let maxY := Z.max y1 y2 in
  let minZ := Z.min z1 z2 in
  let maxZ := Z.max z1 z2 in
  let cs := box_coords x1 y1 z1 x2 y2 z2 in
  (forall W (bot : Bot W) blockType c s,
     box_loop bot x1 y1 z1 x2 y2 z2 blockType c s
     = place_each bot (or_default blockType) cs c s) /\
  NoDup cs /\
  (forall p, In p cs <->
     (minX <= vx p <= maxX /\ minY <= vy p <= maxY /\ minZ <= vz p <= maxZ) /\
     (vx p = minX \/ vx p = maxX \/ vy p = minY \/ vy p = maxY \/
      vz p = minZ \/ vz p = maxZ)) /\
  (forall p,
     minX < vx p < maxX -> minY < vy p < maxY -> minZ < vz p < maxZ ->
     ~ In p cs) /\
  (forall W (bot : Bot W) blockType (s : St W),
     exists bs s' tr,
       build_box bot x1 y1 z1 x2 y2 z2 blockType s =
       (Ok (createResponse
              (box_message (mkCounters (placed_count bs) (failed_count bs)))),
        s') /\
       attempts bot (or_default blockType) cs s bs s' /\
       trace s' = trace s ++ tr /\
       segmented cs tr).
Proof.
  intros minX maxX minY maxY minZ maxZ cs.
  assert (Hin : forall p, In p cs <->
     (minX <= vx p <= maxX /\ minY <= vy p <= maxY /\ minZ <= vz p <= maxZ) /\
     (vx p = minX \/ vx p = maxX \/ vy p = minY \/ vy p = maxY \/
      vz p = minZ \/ vz p = maxZ)).
  { intros p. subst cs. unfold box_coords.
    rewrite filter_In, in_fill_coords. unfold on_shell, isEdge.
    rewrite !orb_true_iff, !Z.eqb_eq.
    subst minX maxX minY maxY minZ maxZ. tauto. }
  split; [intros; apply box_loop_coords|].
  split; [apply NoDup_filter, NoDup_fill_coords|].
  split; [exact Hin|].
  split; [intros p Hx Hy Hz Hp; apply Hin in Hp; lia|].
  intros W bot blockType s.
  apply (placement_run bot (or_default blockType) cs
           (box_loop bot x1 y1 z1 x2 y2 z2 blockType) box_message s
           (fun c t => box_loop_coords bot x1 y1 z1 x2 y2 z2 blockType c t)).
Qed.


Lemma box_coords_count x1 y1 z1 x2 y2 z2 :
  let a := Z.abs (x2 - x1) + 1 in
  let b := Z.abs (y2 - y1) + 1 in
  let c := Z.abs (z2 - z1) + 1 in
  Z.of_nat (List.length (box_coords x1 y1 z1 x2 y2 z2)) =
  a * b * c - Z.max 0 (a - 2) * Z.max 0 (b - 2) * Z.max 0 (c - 2).
Proof.
  intros a b c.
  pose (inner := cuboid (Z.min x1 x2 + 1) (Z.max x1 x2 - 1)
                        (Z.min y1 y2 + 1) (Z.max y1 y2 - 1)
                        (Z.min z1 z2 + 1) (Z.max z1 z2 - 1)).
  pose (hollow := filter (fun p => negb (on_shell x1 y1 z1 x2 y2 z2 p))
                         (fill_coords x1 y1 z1 x2 y2 z2)).
  assert (Hsame : List.length hollow = List.length inner).
  { apply Permutation.Permutation_length.
    apply Permutation.NoDup_Permutation.
    - apply NoDup_filter, NoDup_fill_coords.
    - apply NoDup_cuboid.
    - intros p. unfold hollow, inner.
      rewrite filter_In, in_fill_coords, in_cuboid, negb_true_iff.
      unfold on_shell, isEdge.
      rewrite !orb_false_iff, !Z.eqb_neq. lia. }
  pose proof (filter_length (on_shell x1 y1 z1 x2 y2 z2)
                (fill_coords x1 y1 z1 x2 y2 z2)) as Hsplit.
  fold hollow in Hsplit. fold (box_coords x1 y1 z1 x2 y2 z2) in Hsplit.
  pose proof (fill_coords_length x1 y1 z1 x2 y2 z2) as Hfill.
  pose proof (cuboid_length (Z.min x1 x2 + 1) (Z.max x1 x2 - 1)
                (Z.min y1 y2 + 1) (Z.max y1 y2 - 1)
                (Z.min z1 z2 + 1) (Z.max z1 z2 - 1)) as Hinner.
  fold inner in Hinner. unfold fill_total in Hfill.
  rewrite <- Hsplit, Hsame, Nat2Z.inj_add, Hinner in Hfill.
  subst a b c.
  replace (Z.abs (x2 - x1) + 1) with (Z.max x1 x2 - Z.min x1 x2 + 1) by lia.
  replace (Z.abs (y2 - y1) + 1) with (Z.max y1 y2 - Z.min y1 y2 + 1) by lia.
  replace (Z.abs (z2 - z1) + 1) with (Z.max z1 z2 - Z.min z1 z2 + 1) by lia.
  replace (Z.max x1 x2 - Z.min x1 x2 + 1 - 2)
    with (Z.max x1 x2 - 1 + 1 - (Z.min x1 x2 + 1)) by lia.
  replace (Z.max y1 y2 - Z.min y1 y2 + 1 - 2)
    with (Z.max y1 y2 - 1 + 1 - (Z.min y1 y2 + 1)) by lia.
  replace (Z.max z1 z2 - Z.min z1 z2 + 1 - 2)
    with (Z.max z1 z2 - 1 + 1 - (Z.min z1 z2 + 1)) by lia.
  lia.
Qed.


(** X11.  build-box makes a*b*c - max(0,a-2)*max(0,b-2)*max(0,c-2) calls
    of [placeBlockAt], one per coordinate of its sequence, where a, b, c
    are the numbers of blocks along the three axes: the points of the
    cuboid less those strictly inside it.  The two counters of its summary
    add up to that number. *)
Theorem build_box_count W (bot : Bot W) x1 y1 z1 x2 y2 z2 blockType (s : St W) :
  let a := Z.abs (x2 - x1) + 1 in
  let b := Z.abs (y2 - y1) + 1 in
  let c := Z.abs (z2 - z1) + 1 in
  let shell := a * b * c - Z.max 0 (a - 2) * Z.max 0 (b - 2) * Z.max 0 (c - 2) in
  Z.of_nat (List.length (box_coords x1 y1 z1 x2 y2 z2)) = shell /\
  exists bs s' tr,
    build_box bot x1 y1 z1 x2 y2 z2 blockType s =
    (Ok (createResponse
           (box_message (mkCounters (placed_count bs) (failed_count bs)))),
     s') /\
    attempts bot (or_default blockType) (box_coords x1 y1 z1 x2 y2 z2)
             s bs s' /\
    trace s' = trace s ++ tr /\
    segmented (box_coords x1 y1 z1 x2 y2 z2) tr /\
    Z.of_nat (List.length bs) = shell /\
    placed_count bs + failed_count bs = shell.
Proof.
  intros a b c shell.
  pose proof (box_coords_count x1 y1 z1 x2 y2 z2) as Hcount.
  cbv zeta in Hcount. fold a b c shell in Hcount.
  split; [exact Hcount|].
  destruct (placement_run bot (or_default blockType)
              (box_coords x1 y1 z1 x2 y2 z2)
              (box_loop bot x1 y1 z1 x2 y2 z2 blockType) box_message s
              (fun c t => box_loop_coords bot x1 y1 z1 x2 y2 z2 blockType c t))
    as (bs & s' & tr & Hrun & Hatt & Et & Hseg).
  exists bs, s', tr. repeat split; try assumption.
  - rewrite (attempts_length Hatt). exact Hcount.
  - rewrite counts_length, (attempts_length Hatt). exact Hcount.
Qed.


Lemma floor_total_vs_length centerX centerY centerZ width length :
  0 <= width -> 0 <= length ->
  let attempted :=
    Z.of_nat (List.length (floor_coords centerX centerY centerZ width length)) in
  floor_total width length <= attempted /\
  (floor_total width length = attempted <->
   Z.odd width = true /\ Z.odd length = true).
Proof.
  intros Hw Hl attempted. subst attempted.
  rewrite floor_coords_length. unfold floor_total.
  pose proof (Z.div_mod width 2 ltac:(lia)) as Ew.
  pose proof (Z.div_mod length 2 ltac:(lia)) as El.
  rewrite Zmod_odd in Ew, El.
  pose proof (Z.div_pos width 2 Hw ltac:(lia)) as Pw.
  pose proof (Z.div_pos length 2 Hl ltac:(lia)) as Pl.
  rewrite !Z.max_r by lia.
  set (a := width / 2) in *. set (b := length / 2) in *.
  destruct (Z.odd width), (Z.odd length); (split; [nia|split]).
  all: try (intros [E1 E2]; discriminate).
  all: try (intros _; split; reflexivity).
  all: try (intros E; exfalso; nia).
  nia.
Qed.


(** X14.  For width and length at least 0, the total in the summary of
    build-floor, width*length, never exceeds the number of [placeBlockAt]
    calls the handler made (which is what its two counters add up to), and
    equals it exactly when width and length are both odd. *)
Theorem build_floor_total_vs_attempted W (bot : Bot W)
    centerX centerY centerZ width length blockType (s : St W) :
  0 <= width -> 0 <= length ->
  exists bs s' tr,
    build_floor bot centerX centerY centerZ width length blockType s =
    (Ok (createResponse
           (floor_message width length
              (mkCounters (placed_count bs) (failed_count bs)))), s') /\
    attempts bot (or_default blockType)
             (floor_coords centerX centerY centerZ width length) s bs s' /\
    trace s' = trace s ++ tr /\
    segmented (floor_coords centerX centerY centerZ width length) tr /\
    Z.of_nat (List.length bs) =
      Z.of_nat (List.length
                  (floor_coords centerX centerY centerZ width length)) /\
    placed_count bs + failed_count bs = Z.of_nat (List.length bs) /\
    floor_total width length <= Z.of_nat (List.length bs) /\
    (floor_total width length = Z.of_nat (List.length bs) <->
     Z.odd width = true /\ Z.odd length = true).
Proof.
  intros Hw Hl.
  destruct (@floor_total_vs_length centerX centerY centerZ width length Hw Hl)
    as [Hle Heq].
  destruct (placement_run bot (or_default blockType)
              (floor_coords centerX centerY centerZ width length)
              (floor_loop bot centerX centerY centerZ width length blockType)
              (floor_message width length) s
              (fun c t => floor_loop_coords bot centerX centerY centerZ
                            width length blockType c t))
    as (bs & s' & tr & Hrun & Hatt & Et & Hseg).
  pose proof (attempts_length Hatt) as Hlen.
  exists bs, s', tr.
  split; [exact Hrun|]. split; [exact Hatt|]. split; [exact Et|].
  split; [exact Hseg|]. split; [rewrite Hlen; reflexivity|].
  split; [apply counts_length|]. rewrite Hlen.
  split; [exact Hle|exact Heq].
Qed.

Lemma build_floor_total_vs_attempted_witness :
  exists bs s' tr,
    build_floor Demo.bot 0 0 0 4 5 None (Demo.start Demo.empty) =
    (Ok (createResponse
           (floor_message 4 5
              (mkCounters (placed_count bs) (failed_count bs)))), s') /\
    attempts Demo.bot (or_default None) (floor_coords 0 0 0 4 5)
             (Demo.start Demo.empty) bs s' /\
    trace s' = trace (Demo.start Demo.empty) ++ tr /\
    segmented (floor_coords 0 0 0 4 5) tr /\
    Z.of_nat (List.length bs) =
      Z.of_nat (List.length (floor_coords 0 0 0 4 5)) /\
    placed_count bs + failed_count bs = Z.of_nat (List.length bs) /\
    floor_total 4 5 <= Z.of_nat (List.length bs) /\
    (floor_total 4 5 = Z.of_nat (List.length bs) <->
     Z.odd 4 = true /\ Z.odd 5 = true).
Proof.
  apply (@build_floor_total_vs_attempted _ Demo.bot 0 0 0 4 5 None
           (Demo.start Demo.empty)); lia.
Defined.


(* ================================================================== *)
(** ** clear-area, on the handler's own run *)

(** C8.  A run of clear-area is the body of its loop run once per
    coordinate of the region, in order, each started with the counters and
    in the state the one before left; whatever a coordinate raises, the
    next one is run, to the end of the region, and the summary is made
    from the counters after the last.  At a coordinate holding air (or no
    block) the body leaves both counters as they were; at a block that is
    not air whose dig completes it adds one to [blocksDug]; when the dig,
    or the walk before it, raises, it adds one to [blocksFailed]. *)
Theorem clear_area_counts W (bot : Bot W) :
  (forall x y z c s ob s1,
     blockAt bot (mkVec3 x y z) s = (Ok ob, s1) ->
     non_air ob = false ->
     ClearArea.clear_at bot x y z c s = (Ok c, s1)) /\
  (forall x y z c s b s1 s2 s3,
     blockAt bot (mkVec3 x y z) s = (Ok (Some b), s1) ->
     name b <> "air" ->
     ClearArea.get_close bot x y z b s1 = (Ok tt, s2) ->
     dig bot b s2 = (Ok tt, s3) ->
     ClearArea.clear_at bot x y z c s =
     (Ok (ClearArea.mkCounters (ClearArea.blocksDug c + 1)
                               (ClearArea.blocksFailed c)), s3)) /\
  (forall x y z c s b s1 s2 e s3,
     blockAt bot (mkVec3 x y z) s = (Ok (Some b), s1) ->
     name b <> "air" ->
     ClearArea.get_close bot x y z b s1 = (Ok tt, s2) ->
     dig bot b s2 = (Throw e, s3) ->
     ClearArea.clear_at bot x y z c s =
     (Ok (ClearArea.mkCounters (ClearArea.blocksDug c)
                               (ClearArea.blocksFailed c + 1)), s3)) /\
  (forall x y z c s b s1 s2 e s3,
     blockAt bot (mkVec3 x y z) s = (Ok (Some b), s1) ->
     name b <> "air" ->
     ClearArea.out_of_reach bot b s1 = (Ok true, s2) ->
     goto bot (GoalNear x y z 2) s2 = (Throw e, s3) ->
     ClearArea.clear_at bot x y z c s =
     (Ok (ClearArea.mkCounters (ClearArea.blocksDug c)
                               (ClearArea.blocksFailed c + 1)), s3)) /\
  (forall x1 y1 z1 x2 y2 z2 s,
     exists c' s',
       ClearArea.clear_loop bot x1 y1 z1 x2 y2 z2 (ClearArea.mkCounters 0 0) s
         = (Ok c', s') /\
       queried (trace s') =
         queried (trace s) ++ fill_coords x1 y1 z1 x2 y2 z2 /\
       ClearArea.clear_area bot x1 y1 z1 x2 y2 z2 s =
         (Ok (createResponse (ClearArea.clear_message c')), s') /\
       clears bot (fill_coords x1 y1 z1 x2 y2 z2)
              (ClearArea.mkCounters 0 0) s c' s' /\
       (forall pre p post,
          fill_coords x1 y1 z1 x2 y2 z2 = pre ++ p :: post ->
          exists c0 s0 c1 s1,
            clears bot pre (ClearArea.mkCounters 0 0) s c0 s0 /\
            ClearArea.clear_at bot (vx p) (vy p) (vz p) c0 s0 = (Ok c1, s1) /\
            clears bot post c1 s1 c' s')).
Proof.
  repeat split.
  - intros x y z c s ob s1 Hq Hair.
    unfold ClearArea.clear_at, try_catch, bind. rewrite Hq.
    destruct ob as [b|]; [|reflexivity].
    simpl in Hair. rewrite Hair. reflexivity.
  - intros x y z c s b s1 s2 s3 Hq Hn Hc Hd. apply String.eqb_neq in Hn.
    unfold ClearArea.clear_at, try_catch, bind. rewrite Hq, Hn. simpl.
    rewrite Hc, Hd. reflexivity.
  - intros x y z c s b s1 s2 e s3 Hq Hn Hc Hd. apply String.eqb_neq in Hn.
    unfold ClearArea.clear_at, try_catch, bind. rewrite Hq, Hn. simpl.
    rewrite Hc, Hd. reflexivity.
  - intros x y z c s b s1 s2 e s3 Hq Hn Hfar Hgo.
    apply String.eqb_neq in Hn.
    unfold ClearArea.clear_at, ClearArea.get_close, try_catch, bind.
    rewrite Hq, Hn. simpl. unfold bind. rewrite Hfar, Hgo. reflexivity.
  - intros x1 y1 z1 x2 y2 z2 s.
    destruct (clear_each_clears bot (fill_coords x1 y1 z1 x2 y2 z2)
                (ClearArea.mkCounters 0 0) s) as (c' & s' & Hrun & H).
    rewrite <- clear_loop_coords in H.
    exists c', s'.
    split; [exact H|].
    split; [exact (clears_queried Hrun)|].
    split; [unfold ClearArea.clear_area, try_catch, bind; rewrite H;
            reflexivity|].
    split; [exact Hrun|].
    intros pre p post Hsplit. rewrite Hsplit in Hrun.
    exact (clears_split _ _ _ Hrun).
Qed.



Lemma clear_area_counts_witness :
  ClearArea.clear_at Demo.bot 1 0 0 (ClearArea.mkCounters 1 0)
    (mkSt (Demo.mkWorld [mkVec3 1 0 0] [] [] [] [mkVec3 1 0 0]) []) =
  (Ok (ClearArea.mkCounters 1 1),
   mkSt (Demo.mkWorld [mkVec3 1 0 0] [] [] [] [mkVec3 1 0 0])
        [EBlockAt (mkVec3 1 0 0);
         ECanDigBlock (mkBlock "stone" (mkVec3 1 0 0));
         ECanSeeBlock (mkBlock "stone" (mkVec3 1 0 0));
         EDig (mkBlock "stone" (mkVec3 1 0 0))]) /\
  exists c' s',
    ClearArea.clear_area Demo.bot 0 0 0 1 0 0
      (Demo.start Demo.stubborn_strip) =
    (Ok (createResponse (ClearArea.clear_message c')), s') /\
    clears Demo.bot (fill_coords 0 0 0 1 0 0) (ClearArea.mkCounters 0 0)
           (Demo.start Demo.stubborn_strip) c' s'.
Proof.
  destruct (clear_area_counts Demo.bot) as (_ & _ & H & _ & Hrun).
  split.
  - eapply (H 1 0 0 (ClearArea.mkCounters 1 0) _
              (mkBlock "stone" (mkVec3 1 0 0))).
    + reflexivity.
    + discriminate.
    + reflexivity.
    + reflexivity.
  - destruct (Hrun 0 0 0 1 0 0 (Demo.start Demo.stubborn_strip))
      as (c' & s' & _ & _ & Harea & Hclears & _).
    exists c', s'. split; assumption.
Defined.
